(** * bom_bfr_format: a KiCad netlist to BOM / supplier order sheets

    A shallow embedding of [scripts/bom_bfr_format.py].  The script is a
    top-to-bottom batch run; it is modelled as one computation [main] in a
    state-and-exception monad over a small [world] (file system, standard
    output with its open/closed flag, standard error).

    What the script gets from its host is kept abstract and passed in:
    Python's builtin [int] on strings, the KiCad netlist reader (loading,
    interesting components, grouping with the overridden equivalence, group
    field lookup), whether a path can be opened for writing, the value of
    [__file__], the text Python prints for the [sys.stderr] object, and the
    order in which a Python set is iterated.

    Layout: the data model, the monad and the script come first, then the
    plain functions and predicates the statements are written with and a
    small concrete host ([Demo]) on which the model runs; the lemmas and
    the properties of the specification follow. *)

From Stdlib Require Import ZArith Ascii String List Lia.
From stdpp Require Import base option list gmap sets strings pretty sorting.

Local Open Scope string_scope.
Local Open Scope list_scope.
Local Open Scope Z_scope.

(** ** Components and groups *)

(** A component as the script sees it through the reader's accessors.
    [getRef] is the reference designator, which tells apart two components
    that agree on everything the equivalence looks at. *)
Record comp := Comp {
  getRef : string;
  getValue : string;
  getPartName : string;
  getFootprint : string;
  getDNP : bool
}.

#[global] Instance comp_eq_dec : EqDecision comp.
Proof. solve_decision. Defined.

Definition group := list comp.

(** Python's [!=] on the accessors' results. *)
Definition str_ne (a b : string) : bool := negb (bool_decide (a = b)).
Definition bool_ne (a b : bool) : bool := negb (Bool.eqb a b).

(** [myEqu], lines 44-62: the [if]/[elif] chain that clears [result]. *)
Definition myEqu (self other : comp) : bool :=
  let result := true in
  if str_ne (getValue self) (getValue other) then false
  else if str_ne (getPartName self) (getPartName other) then false
  else if str_ne (getFootprint self) (getFootprint other) then false
  else if bool_ne (getDNP self) (getDNP other) then false
  else result.

(** Modelled from the spec: the reader's [groupComponents], which lives in
    the host library [kicad_netlist_reader] and not in this repository.  The
    spec has it "partition the interesting components into groups" with "an
    overridable equivalence predicate": components are taken in order, each
    one joins the first group whose first member it is equivalent to, and
    opens a new group when there is none. *)
Fixpoint place (equ : comp -> comp -> bool) (c : comp) (gs : list group)
  : list group :=
  match gs with
  | [] => [[c]]
  | g :: gs' =>
      match g with
      | r :: _ => if equ c r then (g ++ [c]) :: gs' else g :: place equ c gs'
      | [] => g :: place equ c gs'
      end
  end.

(** Modelled from the spec: the grouping of a component list, one [place]
    per component in the order given, starting from no group. *)
Definition spec_groupComponents (equ : comp -> comp -> bool)
    (components : list comp) : list group :=
  fold_left (fun gs c => place equ c gs) components [].

(** The netlist object returned by [kicad_netlist_reader.netlist(path)]:
    the three methods the script calls on it.  [groupComponents] receives
    the equivalence explicitly, which is what assigning
    [kicad_netlist_reader.comp.__eq__ = myEqu] (line 67) amounts to. *)
Record netlist := Netlist {
  getInterestingComponents : list comp;
  groupComponents : (comp -> comp -> bool) -> list comp -> list group;
  getGroupField : group -> string -> string
}.

(** ** Values, exceptions, the world *)

(** A cell of a row before [str] is applied: the script appends both
    strings (fields) and integers ([per], the units). *)
Inductive pyval :=
  | PStr (s : string)
  | PInt (z : Z).

(** Python's [str] on the two kinds of cell. *)
Definition str (v : pyval) : string :=
  match v with
  | PStr s => s
  | PInt z => pretty z
  end.

Inductive exn :=
  | SystemExit (code : Z)
  | IOError
  | ValueError
  | ZeroDivisionError
  | NetlistLoadError.

#[global] Instance exn_eq_dec : EqDecision exn.
Proof. solve_decision. Defined.

Inductive handle :=
  | HFile (path : string)
  | HStdout.

Record world := World {
  fs : gmap string string;
  stdout : string;
  stdout_closed : bool;
  stderr : string
}.

Inductive outcome (A : Type) :=
  | Ok (a : A)
  | Raise (e : exn).
Arguments Ok {A} a.
Arguments Raise {A} e.

(** State that survives a raised exception: what was written before the
    exception stays written. *)
Definition M (A : Type) : Type := world -> world * outcome A.

Definition ret {A} (a : A) : M A := fun w => (w, Ok a).
Definition raise {A} (e : exn) : M A := fun w => (w, Raise e).
Definition bind {A B} (m : M A) (k : A -> M B) : M B :=
  fun w => match m w with
           | (w', Ok a) => k a w'
           | (w', Raise e) => (w', Raise e)
           end.

Notation "'let!' x ':=' m 'in' k" := (bind m (fun x => k))
  (at level 10, x name, m at level 100, k at level 200).
Notation "'exec!' m 'in' k" := (bind m (fun _ => k))
  (at level 10, m at level 100, k at level 200).

(** [try: m except e: h] *)
Definition try_except {A} (m : M A) (e : exn) (h : M A) : M A :=
  fun w => match m w with
           | (w', Ok a) => (w', Ok a)
           | (w', Raise e') => if decide (e' = e) then h w' else (w', Raise e')
           end.

Definition newline : string := String (ascii_of_nat 10) "".
Definition dquote : ascii := ascii_of_nat 34.

(** [print(..., file=sys.stderr)] with the text already joined. *)
Definition print_stderr (s : string) : M unit :=
  fun w => (World (fs w) (stdout w) (stdout_closed w) (stderr w +:+ s), Ok tt).

(** Writing to [sys.stdout]: a closed stream raises [ValueError]. *)
Definition write_stdout (s : string) : M unit :=
  fun w => if stdout_closed w then (w, Raise ValueError)
           else (World (fs w) (stdout w +:+ s) (stdout_closed w) (stderr w),
                 Ok tt).

Definition write (h : handle) (s : string) : M unit :=
  match h with
  | HStdout => write_stdout s
  | HFile p =>
      fun w => (World (alter (fun c => c +:+ s) p (fs w))
                      (stdout w) (stdout_closed w) (stderr w), Ok tt)
  end.

(** [f.close()]; on [sys.stdout] it closes the process's standard output. *)
Definition close (h : handle) : M unit :=
  match h with
  | HStdout => fun w => (World (fs w) (stdout w) true (stderr w), Ok tt)
  | HFile _ => ret tt
  end.

(** [print(a, b, ...)]: the arguments joined by single spaces, then a
    newline. *)
Definition print_line (args : list string) : string :=
  String.concat " " args +:+ newline.

(** ** The csv writer

    [csv.writer] with line terminator LF, delimiter comma, the double
    quote as quote character and [csv.QUOTE_ALL]: every field is wrapped in
    the quote character, a quote character inside a field is doubled,
    fields are joined by the delimiter and the record ends with the line
    terminator. *)
Fixpoint csv_escape (s : string) : string :=
  match s with
  | EmptyString => EmptyString
  | String c s' =>
      if decide (c = dquote) then String dquote (String dquote (csv_escape s'))
      else String c (csv_escape s')
  end.

Definition csv_quote (field : string) : string :=
  String dquote (csv_escape field +:+ String dquote "").

Definition csv_record (fields : list string) : string :=
  String.concat "," (map csv_quote fields) +:+ newline.

Definition csv_writerow (f : handle) (fields : list string) : M unit :=
  write f (csv_record fields).

(** ** The script *)

(** Lines 41-42. *)
Definition fromNetlistText (aText : string) : string := aText.

(** Lines 90-94: [str] on every column, then the csv writer's [writerow]. *)
Definition writerow (acsvwriter : handle) (columns : list pyval) : M unit :=
  let utf8row := map (fun col => fromNetlistText (str col)) columns in
  csv_writerow acsvwriter utf8row.

(** [s[:-4]]: all but the last four characters, empty for a shorter [s]. *)
Definition drop_last4 (s : string) : string :=
  substring 0 (String.length s - 4)%nat s.

Definition len (g : group) : Z := Z.of_nat (length g).

(** Python's [//] and [%] on integers: floor division and the matching
    remainder, [ZeroDivisionError] on a zero divisor. *)
Definition floordiv (a b : Z) : M Z :=
  if decide (b = 0) then raise ZeroDivisionError else ret (a / b).
Definition pymod (a b : Z) : M Z :=
  if decide (b = 0) then raise ZeroDivisionError else ret (a mod b).

Definition bom_header : list pyval :=
  [PStr "Component"; PStr "Qty per Unit"; PStr "Units"; PStr "Cost/Unit";
   PStr "Link"; PStr "Part Number"].

Definition order_header : list pyval :=
  [PStr "Component"; PStr "Order Qty"; PStr "Part Number"; PStr "Link"].

Section Script.
(** Python's builtin [int] on a string; [None] stands for [ValueError]. *)
Variable int : string -> option Z.
(** [kicad_netlist_reader.netlist(path)]; [None] when loading fails. *)
Variable kicad_netlist : string -> option netlist.
(** Whether [kicad_utils.open_file_writeUTF8(path, 'w')] succeeds; it
    raises [IOError] otherwise. *)
Variable can_open : string -> bool.
(** The value of [__file__] and the text of [str(sys.stderr)]. *)
Variable file__ : string.
Variable stderr_repr : string.
(** The order in which [for supplier in suppliers_in_use] visits a set. *)
Variable set_iter : gset string -> list string.

Definition py_int (s : string) : M Z :=
  match int s with
  | Some z => ret z
  | None => raise ValueError
  end.

Definition load_netlist (path : string) : M netlist :=
  match kicad_netlist path with
  | Some net => ret net
  | None => raise NetlistLoadError
  end.

(** Opening for writing creates or truncates the file. *)
Definition open_file_writeUTF8 (path : string) : M handle :=
  fun w =>
    if can_open path
    then (World (<[path := ""]> (fs w)) (stdout w) (stdout_closed w) (stderr w),
          Ok (HFile path))
    else (w, Raise IOError).

(** Lines 102-107 and 136-141.  The [print] in the handler passes
    [sys.stderr] as one more thing to print, so the message goes to
    standard output. *)
Definition open_or_stdout (path argv2 : string) : M handle :=
  try_except (open_file_writeUTF8 path) IOError
    (let e := "Can't open output file for writing: " +:+ argv2 in
     exec! write_stdout (print_line [file__; ":"; e; stderr_repr]) in
     ret HStdout).

(** Lines 119-122 and 148-151. *)
Definition qty_per_unit (net : netlist) (g : group) : M Z :=
  try_except (py_int (getGroupField net g "Qty/Unit")) ValueError (ret 1).

(** Lines 124 and 152:
    [(len(group) * int(sys.argv[3])) // per + (1 if len(group)%per else 0)]. *)
Definition units (g : group) (argv3 : string) (per : Z) : M Z :=
  let! boards := py_int argv3 in
  let! q := floordiv (len g * boards) per in
  let! r := pymod (len g) per in
  ret (q + (if decide (r = 0) then 0 else 1)).

(** Lines 117-130: the row of one group, and the supplier set after it. *)
Definition bom_row (net : netlist) (argv3 : string) (g : group)
    (suppliers_in_use : gset string) : M (list pyval * gset string) :=
  let row := [PStr (getGroupField net g "Pretty Name")] in
  let! per := qty_per_unit net g in
  let row := row ++ [PInt per] in
  let! u := units g argv3 per in
  let row := row ++ [PInt u] in
  let row := row ++ [PStr (getGroupField net g "Cost/Unit")] in
  let src := getGroupField net g "Order From" in
  if str_ne src "" then
    ret (row ++ [PStr (getGroupField net g (src +:+ " Link"));
                 PStr (getGroupField net g (src +:+ " P/N"))],
         {[src]} ∪ suppliers_in_use)
  else ret (row, suppliers_in_use).

(** Lines 116-131. *)
Fixpoint bom_loop (net : netlist) (argv3 : string) (out : handle)
    (grouped : list group) (suppliers_in_use : gset string)
  : M (gset string) :=
  match grouped with
  | [] => ret suppliers_in_use
  | g :: rest =>
      let! rs := bom_row net argv3 g suppliers_in_use in
      exec! writerow out (fst rs) in
      bom_loop net argv3 out rest (snd rs)
  end.

(** Lines 146-154. *)
Definition order_row (net : netlist) (argv3 supplier : string) (g : group)
  : M (list pyval) :=
  let row := [PStr (getGroupField net g "Pretty Name")] in
  let! per := qty_per_unit net g in
  let! u := units g argv3 per in
  let row := row ++ [PInt u] in
  let row := row ++ [PStr (getGroupField net g (supplier +:+ " P/N"))] in
  let row := row ++ [PStr (getGroupField net g (supplier +:+ " Link"))] in
  ret row.

(** Lines 144-155. *)
Fixpoint order_rows_loop (net : netlist) (argv3 supplier : string)
    (out : handle) (grouped : list group) : M unit :=
  match grouped with
  | [] => ret tt
  | g :: rest =>
      exec! (if bool_decide (getGroupField net g "Order From" = supplier)
             then let! row := order_row net argv3 supplier g in
                  writerow out row
             else ret tt) in
      order_rows_loop net argv3 supplier out rest
  end.

Definition order_path (argv2 supplier : string) : string :=
  drop_last4 argv2 +:+ "_" +:+ supplier +:+ "-order.csv".

Definition bom_path (argv2 : string) : string :=
  drop_last4 argv2 +:+ "_BOM.csv".

(** Lines 135-156. *)
Fixpoint order_loop (net : netlist) (argv2 argv3 : string)
    (grouped : list group) (suppliers : list string) : M unit :=
  match suppliers with
  | [] => ret tt
  | supplier :: rest =>
      let! order_bom_file := open_or_stdout (order_path argv2 supplier) argv2 in
      let out := order_bom_file in
      exec! writerow out order_header in
      exec! order_rows_loop net argv3 supplier out grouped in
      exec! close order_bom_file in
      order_loop net argv2 argv3 grouped rest
  end.

(** The whole run, lines 69-156.  Lines 80-87 build a column list that
    nothing below reads; they are left out. *)
Definition main (argv : list string) : M unit :=
  if negb (length argv =? 4)%nat then
    exec! print_stderr
      (print_line
         ["Usage "; file__; "<generic_netlist.xml> <output.csv> <QTY>"]) in
    raise (SystemExit 1)
  else
    let argv1 := nth 1 argv "" in
    let argv2 := nth 2 argv "" in
    let argv3 := nth 3 argv "" in
    let! net := load_netlist argv1 in
    let components := getInterestingComponents net in
    let grouped := groupComponents net myEqu components in
    let! bfr_bom_file := open_or_stdout (bom_path argv2) argv2 in
    let out := bfr_bom_file in
    exec! writerow out bom_header in
    let! suppliers_in_use := bom_loop net argv3 out grouped ∅ in
    exec! close bfr_bom_file in
    order_loop net argv2 argv3 grouped (set_iter suppliers_in_use).

End Script.

(** The process exit status of a finished run: 0 on normal completion,
    the argument of [sys.exit], 1 for an uncaught exception. *)
Definition exit_status {A} (o : outcome A) : Z :=
  match o with
  | Ok _ => 0
  | Raise (SystemExit c) => c
  | Raise _ => 1
  end.

(** ** Pure readings of the loop bodies

    What the monadic code computes when nothing is raised, as plain
    functions; the lemmas below tie them to the code. *)

(** The ceiling of [a / b] the way the specification words it: floor
    division, plus one when the remainder is not zero. *)
Definition ceil_div (a b : Z) : Z :=
  a / b + (if decide (a mod b = 0) then 0 else 1).

(** The number on lines 124 and 152 for a group of [n] members. *)
Definition units_value (n boards per : Z) : Z :=
  n * boards / per + (if decide (n mod per = 0) then 0 else 1).

Section Readings.
Variable int : string -> option Z.
Variable net : netlist.

Definition per_of (g : group) : Z :=
  default 1 (int (getGroupField net g "Qty/Unit")).

Definition order_from (g : group) : string :=
  getGroupField net g "Order From".

Definition bom_row_value (boards : Z) (g : group) : list pyval :=
  [PStr (getGroupField net g "Pretty Name");
   PInt (per_of g);
   PInt (units_value (len g) boards (per_of g));
   PStr (getGroupField net g "Cost/Unit")]
  ++ (if decide (order_from g = "") then []
      else [PStr (getGroupField net g (order_from g +:+ " Link"));
            PStr (getGroupField net g (order_from g +:+ " P/N"))]).

Definition order_row_value (boards : Z) (supplier : string) (g : group)
  : list pyval :=
  [PStr (getGroupField net g "Pretty Name");
   PInt (units_value (len g) boards (per_of g));
   PStr (getGroupField net g (supplier +:+ " P/N"));
   PStr (getGroupField net g (supplier +:+ " Link"))].

(** The suppliers named by the groups: the non-empty "Order From" values. *)
Definition suppliers_of (grouped : list group) : gset string :=
  list_to_set (filter (fun s => s ≠ "") (order_from <$> grouped)).

Definition groups_from (supplier : string) (grouped : list group)
  : list group :=
  filter (fun g => order_from g = supplier) grouped.

End Readings.

(** The text of a whole CSV file: its records one after the other. *)
Definition csv_lines (records : list (list string)) : string :=
  foldr (fun r acc => csv_record r +:+ acc) "" records.

Definition csv_text (rows : list (list pyval)) : string :=
  csv_lines (map str <$> rows).

(** ** Writing through a handle *)

Definition append_file (p s : string) (m : gmap string string)
  : gmap string string :=
  alter (fun c => c +:+ s) p m.

(** The world after [s] has gone out through [h]. *)
Definition emit (h : handle) (s : string) (w : world) : world :=
  match h with
  | HFile p =>
      World (append_file p s (fs w)) (stdout w) (stdout_closed w) (stderr w)
  | HStdout => World (fs w) (stdout w +:+ s) (stdout_closed w) (stderr w)
  end.

(** A handle that can be written: a file, or standard output still open. *)
Definition writable (h : handle) (w : world) : Prop :=
  match h with
  | HFile _ => True
  | HStdout => stdout_closed w = false
  end.

(** ** A small Hoare logic over [M]

    [triple P m Q R]: from a world satisfying [P], [m] ends normally with
    a value and a world satisfying [Q], or raises in a world satisfying
    [R]. *)

Definition triple {A} (P : world -> Prop) (m : M A)
    (Q : A -> world -> Prop) (R : world -> Prop) : Prop :=
  forall w, P w ->
    match m w with
    | (w', Ok a) => Q a w'
    | (w', Raise _) => R w'
    end.

(** A computation that leaves the world as it found it. *)
Definition pure_m {A} (m : M A) : Prop := forall w, (m w).1 = w.

(** [I] holds of the file system; [hinv] adds what is known of the file
    behind a handle. *)
Definition winv (I : gmap string string -> Prop) (w : world) : Prop :=
  I (fs w).

Definition hinv (I : gmap string string -> Prop)
    (Hd : string -> gmap string string -> Prop) (h : handle) (w : world)
  : Prop :=
  winv I w ∧ match h with HFile p => Hd p (fs w) | HStdout => True end.

(** The map after inserting [v a] at [k a] for each [a] of [l] in turn. *)
Definition insert_all {A : Type} (k : A -> string) (v : A -> string)
    (l : list A) (m : gmap string string) : gmap string string :=
  foldl (fun m a => <[k a := v a]> m) m l.

(** The line the [except IOError] handlers print. *)
Definition open_message (file__ stderr_repr argv2 : string) : string :=
  print_line [file__; ":"; "Can't open output file for writing: " +:+ argv2;
              stderr_repr].

(** The aggregate file and a supplier's order file, as text. *)
Definition bom_text (int : string -> option Z) (net : netlist) (boards : Z)
    (grouped : list group) : string :=
  csv_text (bom_header :: (bom_row_value int net boards <$> grouped)).

Definition order_text (int : string -> option Z) (net : netlist) (boards : Z)
    (grouped : list group) (supplier : string) : string :=
  csv_text (order_header
            :: (order_row_value int net boards supplier
                  <$> groups_from net supplier grouped)).

(** The line printed for a wrong argument count. *)
Definition usage (file__ : string) : string :=
  print_line ["Usage "; file__; "<generic_netlist.xml> <output.csv> <QTY>"].

(** The groups the run works on, for a loaded netlist. *)
Definition grouped_of (net : netlist) : list group :=
  groupComponents net myEqu (getInterestingComponents net).

(** ** Reading quoted CSV back

    A reader for the format the writer produces, used to say what "a field
    is preserved" means: it accepts only text in which every field is
    wrapped in double quotes, fields are separated by commas and every
    record ends with a line feed; inside a field a doubled quote stands
    for one quote and commas and line feeds are ordinary characters.  A
    line feed where a record would start is a record with no field. *)

Inductive rstate :=
  | RecordStart
  | FieldStart
  | InField
  | AfterQuote.

Definition finish_field (cur : list ascii) : string :=
  string_of_list_ascii (rev cur).

(** [cur]: the characters of the field being read, last first; [fields]:
    the fields of the record being read, last first; [recs]: the records
    read, last first. *)
Fixpoint csv_read (st : rstate) (cur : list ascii) (fields : list string)
    (recs : list (list string)) (s : string) : option (list (list string)) :=
  match s with
  | EmptyString =>
      match st with
      | RecordStart => Some (rev recs)
      | _ => None
      end
  | String c s' =>
      match st with
      | RecordStart =>
          if decide (c = dquote) then csv_read InField [] fields recs s'
          else if decide (c = ascii_of_nat 10) then
            csv_read RecordStart [] [] ([] :: recs) s'
          else None
      | FieldStart =>
          if decide (c = dquote) then csv_read InField [] fields recs s'
          else None
      | InField =>
          if decide (c = dquote) then csv_read AfterQuote cur fields recs s'
          else csv_read InField (c :: cur) fields recs s'
      | AfterQuote =>
          if decide (c = dquote) then
            csv_read InField (dquote :: cur) fields recs s'
          else if decide (c = ","%char) then
            csv_read FieldStart [] (finish_field cur :: fields) recs s'
          else if decide (c = ascii_of_nat 10) then
            csv_read RecordStart [] []
              (rev (finish_field cur :: fields) :: recs) s'
          else None
      end
  end.

Definition csv_parse (s : string) : option (list (list string)) :=
  csv_read RecordStart [] [] [] s.

Definition field_start (st : rstate) : Prop :=
  st = RecordStart ∨ st = FieldStart.

(** ** Keys of groups *)

(** What [myEqu] compares. *)
Definition key (c : comp) : string * string * string * bool :=
  (getValue c, getPartName c, getFootprint c, getDNP c).

(** Every member of [g] has key [k], and [g] has a member. *)
Definition same_key (k : string * string * string * bool) (g : group) : Prop :=
  g ≠ [] ∧ Forall (fun a => key a = k) g.

Definition avoids (k : string * string * string * bool) (g : group) : Prop :=
  Forall (fun a => key a ≠ k) g.

(** Groups as the grouping builds them: each has one key, which no later
    group shares. *)
Fixpoint keyed (gs : list group) : Prop :=
  match gs with
  | [] => True
  | g :: gs' => (exists k, same_key k g ∧ Forall (avoids k) gs') ∧ keyed gs'
  end.

(** ** A concrete host, for running the model *)

Module Demo.

(** Whitespace that [int] skips around the number (ASCII part). *)
Definition is_space (c : ascii) : bool :=
  let n := nat_of_ascii c in
  ((n =? 32) || ((9 <=? n) && (n <=? 13)) || ((28 <=? n) && (n <=? 31)))%nat.

Definition digit_of (c : ascii) : option Z :=
  let n := nat_of_ascii c in
  if ((48 <=? n) && (n <=? 57))%nat then Some (Z.of_nat (n - 48)) else None.

Fixpoint lstrip (s : string) : string :=
  match s with
  | String c s' => if is_space c then lstrip s' else s
  | EmptyString => EmptyString
  end.

Fixpoint all_space (s : string) : bool :=
  match s with
  | String c s' => is_space c && all_space s'
  | EmptyString => true
  end.

(** Decimal digits with single underscores between them, then optional
    trailing whitespace. *)
Fixpoint digits (s : string) (acc : Z) (after_digit : bool) : option Z :=
  match s with
  | EmptyString => if after_digit then Some acc else None
  | String c s' =>
      match digit_of c with
      | Some d => digits s' (10 * acc + d) true
      | None =>
          if negb after_digit then None
          else if bool_decide (c = "_"%char) then digits s' acc false
          else if all_space s then Some acc
          else None
      end
  end.

(** The ASCII fragment of Python's [int(str)] in base ten. *)
Definition int (s : string) : option Z :=
  match lstrip s with
  | String "-" s' => Z.opp <$> digits s' 0 false
  | String "+" s' => digits s' 0 false
  | s' => digits s' 0 false
  end.

Definition R1 := Comp "R1" "10k" "R" "R_0603" false.
Definition R2 := Comp "R2" "10k" "R" "R_0603" false.
Definition R3 := Comp "R3" "10k" "R" "R_0805" false.
Definition C1 := Comp "C1" "100n" "C" "C_0603" false.
Definition U1 := Comp "U1" "LM358" "LM358" "SOIC-8" false.

(** Field tables keyed by the value of a group's first member. *)
Definition fields_of (value : string) : list (string * string) :=
  if bool_decide (value = "10k") then
    [("Pretty Name", "Resistor, 10k"); ("Qty/Unit", "2"); ("Cost/Unit", "0.10");
     ("Order From", "Digikey"); ("Digikey P/N", "311-10KGRCT-ND");
     ("Digikey Link", "https://digikey.example/10k")]
  else if bool_decide (value = "100n") then
    [("Pretty Name", "Cap 100n"); ("Qty/Unit", "ten"); ("Cost/Unit", "0.02")]
  else if bool_decide (value = "LM358") then
    [("Pretty Name", "Op-amp"); ("Qty/Unit", "0"); ("Cost/Unit", "0.50");
     ("Order From", "Mouser"); ("Mouser P/N", "595-LM358");
     ("Mouser Link", "m")]
  else [].

Fixpoint assoc (k : string) (l : list (string * string)) : string :=
  match l with
  | [] => ""
  | (k', v) :: l' => if bool_decide (k' = k) then v else assoc k l'
  end.

Definition group_field (g : group) (field : string) : string :=
  match g with
  | [] => ""
  | c :: _ => assoc field (fields_of (getValue c))
  end.

Definition net (components : list comp) : netlist :=
  Netlist components spec_groupComponents group_field.

Definition world0 : world := World ∅ "" false "".

End Demo.

(** The script run on the demo host. *)
Definition demo_argv (output qty : string) : list string :=
  ["bom_bfr_format.py"; "in.xml"; output; qty].

Definition demo_main (components : list comp) (can_open : string -> bool) :=
  main Demo.int (fun _ => Some (Demo.net components)) can_open
    "bom_bfr_format.py" "<stderr>" elements.

Definition digikey_link : string := "https://digikey.example/10k".
Definition digikey_pn : string := "311-10KGRCT-ND".

Definition all_open : string -> bool := fun _ => true.

Definition demo_board : list comp := [Demo.R1; Demo.C1; Demo.R2].

(** A board with a part whose quantity per unit is zero. *)
Definition demo_zero : list comp := [Demo.R1; Demo.U1].

(** A host on which exactly one path does not open. *)
Definition open_except (path : string) : string -> bool :=
  fun p => negb (bool_decide (p = path)).

Definition demo_run (components : list comp) (can_open : string -> bool)
    (qty : string) : world * outcome unit :=
  main Demo.int (fun _ => Some (Demo.net components)) can_open
    "bom_bfr_format.py" "<stderr>" elements
    ["bom_bfr_format.py"; "in.xml"; "out.csv"; qty] Demo.world0.

(** A host with three suppliers in use, one part from each. *)
Module Shop.

Definition Q1 := Comp "Q1" "BC547" "Q_NPN_CBE" "TO-92" false.
Definition L1 := Comp "L1" "10uH" "L" "L_0805" false.

Definition fields_of (value : string) : list (string * string) :=
  if bool_decide (value = "BC547") then
    [("Pretty Name", "Transistor BC547"); ("Qty/Unit", "1");
     ("Cost/Unit", "0.05"); ("Order From", "Mouser");
     ("Mouser P/N", "512-BC547");
     ("Mouser Link", "https://mouser.example/bc547")]
  else if bool_decide (value = "10uH") then
    [("Pretty Name", "Inductor 10uH"); ("Qty/Unit", "5");
     ("Cost/Unit", "0.30"); ("Order From", "Farnell");
     ("Farnell P/N", "2292520");
     ("Farnell Link", "https://farnell.example/10uh")]
  else Demo.fields_of value.

Definition group_field (g : group) (field : string) : string :=
  match g with
  | [] => ""
  | c :: _ => Demo.assoc field (fields_of (getValue c))
  end.

Definition board : list comp := [Demo.R1; Q1; L1; Demo.R2].

Definition net : netlist :=
  Netlist board spec_groupComponents group_field.

End Shop.

(** A host on which exactly the listed paths open. *)
Definition open_among (paths : list string) : string -> bool :=
  fun p => bool_decide (p ∈ paths).

(** The two files of a run on [demo_board] with output argument out.csv. *)
Definition demo_outputs : list string :=
  ["out_BOM.csv"; "out_Digikey-order.csv"].

(** ** The column list, lines 79-87

    The script builds a list of column names before it groups anything:
    the union of the component field names and of the library part field
    names without four of them, sorted, after eight fixed names.  The two
    field sets come from the reader ([gatherComponentFieldUnion],
    [gatherLibPartFieldUnion]) and are taken as given. *)

Definition hardcoded_columns : list string :=
  ["Item"; "Qty"; "Reference(s)"; "Value"; "LibPart"; "Footprint";
   "Datasheet"; "DNP"].

(** The names line 83 takes out of the part fields. *)
Definition removed_partfields : gset string :=
  {[ "Reference"; "Value"; "Datasheet"; "Footprint" ]}.

(** Python's [sorted] on strings: ascending in the lexicographic order of
    the characters' codes. *)
Definition py_sorted (l : list string) : list string :=
  merge_sort String.le l.

(** Lines 83-87; [set_iter] is the order in which [list(columnset)] lists
    the set. *)
Definition columns (set_iter : gset string -> list string)
    (compfields partfields : gset string) : list string :=
  let partfields := partfields ∖ removed_partfields in
  let columnset := compfields ∪ partfields in
  hardcoded_columns ++ py_sorted (set_iter columnset).

(** ** Which exceptions a computation can end with *)

Definition may_raise {A} (E : exn -> Prop) (m : M A) : Prop :=
  forall w w' e, m w = (w', Raise e) -> E e.

(** What can escape the loops: a failed [int], a closed standard output,
    a zero divisor. *)
Definition loop_exn (e : exn) : Prop :=
  e = ValueError ∨ e = ZeroDivisionError.

(** ** Basic facts about the monad and the primitives *)

Lemma string_app_cons (x : ascii) (a b : string) :
  String x a +:+ b = String x (a +:+ b).
Proof. reflexivity. Qed.

Lemma string_app_nil_l (a : string) : "" +:+ a = a.
Proof. reflexivity. Qed.

Lemma string_app_assoc (a b c : string) : (a +:+ b) +:+ c = a +:+ (b +:+ c).
Proof.
  induction a as [|x a IH]; [done|]. rewrite !string_app_cons. by f_equal.
Qed.

Lemma string_app_nil_r (a : string) : a +:+ "" = a.
Proof.
  induction a as [|x a IH]; [done|]. rewrite string_app_cons. by f_equal.
Qed.

Lemma string_app_length (a b : string) :
  String.length (a +:+ b) = (String.length a + String.length b)%nat.
Proof.
  induction a as [|x a IH]; [done|]. rewrite string_app_cons. simpl. by f_equal.
Qed.

Lemma str_ne_true (a b : string) : str_ne a b = true <-> a ≠ b.
Proof.
  unfold str_ne. rewrite negb_true_iff, bool_decide_eq_false. done.
Qed.

Lemma str_ne_false (a b : string) : str_ne a b = false <-> a = b.
Proof.
  unfold str_ne. rewrite negb_false_iff, bool_decide_eq_true. done.
Qed.

Section ScriptFacts.
Variable int : string -> option Z.
Variable kicad_netlist : string -> option netlist.
Variable can_open : string -> bool.
Variable file__ : string.
Variable stderr_repr : string.
Variable set_iter : gset string -> list string.

Lemma py_int_some s z w : int s = Some z -> py_int int s w = (w, Ok z).
Proof. intros H. unfold py_int. by rewrite H. Qed.

Lemma py_int_none s w : int s = None -> py_int int s w = (w, Raise ValueError).
Proof. intros H. unfold py_int. by rewrite H. Qed.

Lemma qty_per_unit_eq net g w :
  qty_per_unit int net g w = (w, Ok (per_of int net g)).
Proof.
  unfold qty_per_unit, try_except, py_int, per_of.
  by destruct (int _) as [z|].
Qed.

Lemma units_ok g argv3 boards per w :
  int argv3 = Some boards -> per ≠ 0 ->
  units int g argv3 per w = (w, Ok (units_value (len g) boards per)).
Proof.
  intros Hb Hp. unfold units, bind, floordiv, pymod.
  rewrite (py_int_some _ _ _ Hb). by rewrite !decide_False.
Qed.

Lemma units_zero g argv3 boards w :
  int argv3 = Some boards ->
  units int g argv3 0 w = (w, Raise ZeroDivisionError).
Proof.
  intros Hb. unfold units, bind, floordiv.
  by rewrite (py_int_some _ _ _ Hb).
Qed.

Lemma units_bad_boards g argv3 per w :
  int argv3 = None -> units int g argv3 per w = (w, Raise ValueError).
Proof. intros Hb. unfold units, bind. by rewrite (py_int_none _ _ Hb). Qed.

Lemma bom_row_ok net g argv3 boards S w :
  int argv3 = Some boards -> per_of int net g ≠ 0 ->
  bom_row int net argv3 g S w
  = (w, Ok (bom_row_value int net boards g,
            if decide (order_from net g = "") then S
            else {[order_from net g]} ∪ S)).
Proof.
  intros Hb Hp. unfold bom_row, bind. rewrite qty_per_unit_eq.
  rewrite (units_ok _ _ _ _ _ Hb Hp). unfold bom_row_value, order_from.
  destruct (str_ne _ "") eqn:E.
  - apply str_ne_true in E. by rewrite !decide_False.
  - apply str_ne_false in E. by rewrite !decide_True.
Qed.

Lemma bom_row_zero net g argv3 boards S w :
  int argv3 = Some boards -> per_of int net g = 0 ->
  bom_row int net argv3 g S w = (w, Raise ZeroDivisionError).
Proof.
  intros Hb Hp. unfold bom_row, bind. rewrite qty_per_unit_eq, Hp.
  by rewrite (units_zero _ _ _ _ Hb).
Qed.

Lemma order_row_ok net g argv3 boards supplier w :
  int argv3 = Some boards -> per_of int net g ≠ 0 ->
  order_row int net argv3 supplier g w
  = (w, Ok (order_row_value int net boards supplier g)).
Proof.
  intros Hb Hp. unfold order_row, bind. rewrite qty_per_unit_eq.
  by rewrite (units_ok _ _ _ _ _ Hb Hp).
Qed.

End ScriptFacts.

Lemma append_file_app p s t m :
  append_file p t (append_file p s m) = append_file p (s +:+ t) m.
Proof.
  unfold append_file. rewrite alter_alter_eq. apply alter_ext.
  intros c _. simpl. apply string_app_assoc.
Qed.

Lemma append_file_empty p m : append_file p "" m = m.
Proof. apply alter_id. intros c _. apply string_app_nil_r. Qed.

Lemma append_file_insert p c s m :
  append_file p s (<[p := c]> m) = <[p := c +:+ s]> m.
Proof. unfold append_file. by rewrite alter_insert_eq. Qed.

Lemma write_emit h s w : writable h w -> write h s w = (emit h s w, Ok tt).
Proof.
  destruct h as [p|]; simpl; [done|].
  intros Hw. unfold write_stdout. by rewrite Hw.
Qed.

Lemma emit_emit h s t w : emit h t (emit h s w) = emit h (s +:+ t) w.
Proof.
  destruct h as [p|]; simpl.
  - by rewrite append_file_app.
  - by rewrite string_app_assoc.
Qed.

Lemma emit_empty h w : emit h "" w = w.
Proof.
  destruct w, h as [p|]; simpl.
  - by rewrite append_file_empty.
  - by rewrite string_app_nil_r.
Qed.

Lemma writable_emit h s w : writable h w -> writable h (emit h s w).
Proof. by destruct h. Qed.

Lemma writerow_emit h row w :
  writable h w ->
  writerow h row w = (emit h (csv_record (map str row)) w, Ok tt).
Proof.
  intros Hw. unfold writerow, csv_writerow, fromNetlistText.
  by apply write_emit.
Qed.


Lemma csv_text_cons row rows :
  csv_text (row :: rows) = csv_record (map str row) +:+ csv_text rows.
Proof. done. Qed.

(** ** The suppliers of a list of groups *)

Lemma suppliers_of_nil net : suppliers_of net [] = ∅.
Proof. done. Qed.

Lemma suppliers_of_cons net g grouped :
  suppliers_of net (g :: grouped)
  = (if decide (order_from net g = "") then ∅ else {[order_from net g]})
    ∪ suppliers_of net grouped.
Proof.
  unfold suppliers_of. rewrite fmap_cons.
  destruct (decide (order_from net g = "")) as [E|E].
  - rewrite filter_cons_False by (intros H; by apply H).
    by rewrite union_empty_l_L.
  - rewrite filter_cons_True by done. by rewrite list_to_set_cons.
Qed.

Lemma elem_of_suppliers_of net s grouped :
  s ∈ suppliers_of net grouped
  <-> s ≠ "" ∧ exists g, g ∈ grouped ∧ order_from net g = s.
Proof.
  unfold suppliers_of.
  rewrite elem_of_list_to_set, list_elem_of_filter, list_elem_of_fmap.
  split.
  - intros [Hs (g & -> & Hg)]. split; [done|]. by exists g.
  - intros [Hs (g & Hg & <-)]. split; [done|]. by exists g.
Qed.

Lemma suppliers_after_row net g grouped (S : gset string) :
  suppliers_of net grouped
    ∪ (if decide (order_from net g = "") then S
       else {[order_from net g]} ∪ S)
  = suppliers_of net (g :: grouped) ∪ S.
Proof.
  rewrite suppliers_of_cons. case_decide.
  - by rewrite union_empty_l_L.
  - rewrite (union_comm_L {[order_from net g]} (suppliers_of net grouped)).
    by rewrite union_assoc_L.
Qed.

Section Loops.
Variable int : string -> option Z.
Variable net : netlist.
Variable argv3 : string.
Variable boards : Z.
Hypothesis boards_ok : int argv3 = Some boards.

(** The aggregate loop when no group has a zero quantity per unit: all
    rows go out, in order, and the suppliers seen are collected. *)
Lemma bom_loop_ok out grouped S w :
  Forall (fun g => per_of int net g ≠ 0) grouped ->
  writable out w ->
  bom_loop int net argv3 out grouped S w
  = (emit out (csv_text (bom_row_value int net boards <$> grouped)) w,
     Ok (suppliers_of net grouped ∪ S)).
Proof.
  intros Hper. revert S w.
  induction Hper as [|g grouped Hg Hper IH]; intros S w Hw.
  - simpl. unfold ret. by rewrite emit_empty, suppliers_of_nil, union_empty_l_L.
  - simpl. unfold bind at 1.
    rewrite (bom_row_ok _ _ _ _ _ _ _ boards_ok Hg). simpl.
    unfold bind at 1. rewrite (writerow_emit _ _ _ Hw).
    rewrite IH by by apply writable_emit.
    by rewrite emit_emit, suppliers_after_row.
Qed.

(** The aggregate loop when some group has quantity per unit zero: the
    division raises, and nothing catches it. *)
Lemma bom_loop_zero out grouped S w :
  Exists (fun g => per_of int net g = 0) grouped ->
  writable out w ->
  (bom_loop int net argv3 out grouped S w).2 = Raise ZeroDivisionError.
Proof.
  intros Hex. revert S w.
  induction grouped as [|g grouped IH]; intros S w Hw.
  - by apply Exists_nil in Hex.
  - simpl. unfold bind at 1.
    destruct (decide (per_of int net g = 0)) as [Hz|Hnz].
    + by rewrite (bom_row_zero _ _ _ _ _ _ _ boards_ok Hz).
    + rewrite (bom_row_ok _ _ _ _ _ _ _ boards_ok Hnz). simpl.
      unfold bind at 1. rewrite (writerow_emit _ _ _ Hw).
      apply IH; [|by apply writable_emit].
      apply Exists_cons in Hex as [Hex|Hex]; done.
Qed.

(** One supplier's rows. *)
Lemma order_rows_loop_ok supplier out grouped w :
  Forall (fun g => per_of int net g ≠ 0) grouped ->
  writable out w ->
  order_rows_loop int net argv3 supplier out grouped w
  = (emit out (csv_text (order_row_value int net boards supplier
                           <$> groups_from net supplier grouped)) w,
     Ok tt).
Proof.
  intros Hper. revert w.
  induction Hper as [|g grouped Hg Hper IH]; intros w Hw.
  - simpl. unfold ret. by rewrite emit_empty.
  - simpl. unfold bind at 1. unfold groups_from.
    destruct (decide (order_from net g = supplier)) as [E|E].
    + rewrite bool_decide_eq_true_2 by done.
      unfold bind at 1. rewrite (order_row_ok _ _ _ _ _ _ _ boards_ok Hg).
      rewrite (writerow_emit _ _ _ Hw).
      rewrite IH by by apply writable_emit.
      rewrite emit_emit. rewrite filter_cons_True by done. done.
    + rewrite bool_decide_eq_false_2 by done. unfold ret at 1.
      rewrite IH by done. rewrite filter_cons_False by done. done.
Qed.

End Loops.

Lemma triple_ret {A} (a : A) (P : world -> Prop) Q R :
  (forall w, P w -> Q a w) -> triple P (ret a) Q R.
Proof. intros H w Hw. by apply H. Qed.

Lemma triple_raise {A} e (P : world -> Prop) (Q : A -> world -> Prop) R :
  (forall w, P w -> R w) -> triple P (raise e) Q R.
Proof. intros H w Hw. by apply H. Qed.

Lemma triple_bind {A B} (m : M A) (k : A -> M B) P Q' Q R :
  triple P m Q' R -> (forall a, triple (Q' a) (k a) Q R) ->
  triple P (bind m k) Q R.
Proof.
  intros Hm Hk w Hw. unfold bind. specialize (Hm w Hw).
  destruct (m w) as [w' [a|e]]; [|done]. by apply Hk.
Qed.

Lemma triple_try {A} (m h : M A) e P Q R' R :
  triple P m Q R' -> (forall w, R' w -> R w) -> triple R' h Q R ->
  triple P (try_except m e h) Q R.
Proof.
  intros Hm HR Hh w Hw. unfold try_except. specialize (Hm w Hw).
  destruct (m w) as [w' [a|e']]; [done|].
  case_decide; [by apply Hh | by apply HR].
Qed.

Lemma triple_weaken {A} (m : M A) (P P' : world -> Prop)
    (Q Q' : A -> world -> Prop) (R R' : world -> Prop) :
  triple P' m Q' R' ->
  (forall w, P w -> P' w) -> (forall a w, Q' a w -> Q a w) ->
  (forall w, R' w -> R w) ->
  triple P m Q R.
Proof.
  intros Hm HP HQ HR w Hw. specialize (Hm w (HP w Hw)).
  destruct (m w) as [w' [a|e]]; auto.
Qed.

Lemma pure_ret {A} (a : A) : pure_m (ret a).
Proof. done. Qed.

Lemma pure_raise {A} e : pure_m (@raise A e).
Proof. done. Qed.

Lemma pure_bind {A B} (m : M A) (k : A -> M B) :
  pure_m m -> (forall a, pure_m (k a)) -> pure_m (bind m k).
Proof.
  intros Hm Hk w. unfold bind. specialize (Hm w).
  destruct (m w) as [w' [a|e]]; simpl in *; subst; [apply Hk | done].
Qed.

Lemma pure_try {A} (m h : M A) e :
  pure_m m -> pure_m h -> pure_m (try_except m e h).
Proof.
  intros Hm Hh w. unfold try_except. specialize (Hm w).
  destruct (m w) as [w' [a|e']]; simpl in *; subst; [done|].
  case_decide; [apply Hh | done].
Qed.

Lemma pure_triple {A} (m : M A) (P : world -> Prop) :
  pure_m m -> triple P m (fun _ => P) P.
Proof.
  intros Hm w Hw. specialize (Hm w).
  destruct (m w) as [w' [a|e]]; simpl in *; by subst.
Qed.

Section PureParts.
Variable int : string -> option Z.

Lemma pure_py_int s : pure_m (py_int int s).
Proof.
  unfold py_int. destruct (int s); [apply pure_ret | apply pure_raise].
Qed.

Lemma pure_floordiv a b : pure_m (floordiv a b).
Proof. unfold floordiv. case_decide; [apply pure_raise | apply pure_ret]. Qed.

Lemma pure_pymod a b : pure_m (pymod a b).
Proof. unfold pymod. case_decide; [apply pure_raise | apply pure_ret]. Qed.

Lemma pure_qty_per_unit net g : pure_m (qty_per_unit int net g).
Proof. apply pure_try; [apply pure_py_int | apply pure_ret]. Qed.

Lemma pure_units g argv3 per : pure_m (units int g argv3 per).
Proof.
  unfold units.
  apply pure_bind; [apply pure_py_int | intros boards].
  apply pure_bind; [apply pure_floordiv | intros q].
  apply pure_bind; [apply pure_pymod | intros r]. apply pure_ret.
Qed.

Lemma pure_bom_row net argv3 g S : pure_m (bom_row int net argv3 g S).
Proof.
  unfold bom_row.
  apply pure_bind; [apply pure_qty_per_unit | intros per].
  apply pure_bind; [apply pure_units | intros u].
  destruct (str_ne _ _); apply pure_ret.
Qed.

Lemma pure_order_row net argv3 supplier g :
  pure_m (order_row int net argv3 supplier g).
Proof.
  unfold order_row.
  apply pure_bind; [apply pure_qty_per_unit | intros per].
  apply pure_bind; [apply pure_units | intros u]. apply pure_ret.
Qed.

End PureParts.

(** ** Invariants of the file system across the run

    [I] is a property of the file system, [Hd p] what is known of a file
    the script holds open at [p], [Op] the paths the script may open.  When
    opening and appending a record keep them, every phase of the script
    keeps [I], whether it ends normally or raises. *)

Section FsInvariant.
Variable int : string -> option Z.
Variable kicad_netlist : string -> option netlist.
Variable can_open : string -> bool.
Variable file__ : string.
Variable stderr_repr : string.
Variable set_iter : gset string -> list string.

Variable I : gmap string string -> Prop.
Variable Hd : string -> gmap string string -> Prop.
Variable Op : string -> Prop.
Hypothesis I_open : forall p m,
  Op p -> I m -> I (<[p := ""]> m) ∧ Hd p (<[p := ""]> m).
Hypothesis I_write : forall p r m,
  I m -> Hd p m ->
  I (append_file p (csv_record r) m) ∧ Hd p (append_file p (csv_record r) m).

Lemma write_stdout_inv s :
  triple (winv I) (write_stdout s) (fun _ => winv I) (winv I).
Proof. intros w Hw. unfold write_stdout. by destruct (stdout_closed w). Qed.

Lemma open_or_stdout_inv path argv2 :
  Op path ->
  triple (winv I) (open_or_stdout can_open file__ stderr_repr path argv2)
    (hinv I Hd) (winv I).
Proof.
  intros Hop. unfold open_or_stdout. apply triple_try with (R' := (winv I)).
  - intros w Hw. unfold open_file_writeUTF8.
    destruct (can_open path); [|done]. split; by apply I_open.
  - done.
  - eapply triple_bind; [apply write_stdout_inv|].
    intros ?. by apply triple_ret.
Qed.

Lemma writerow_inv h row :
  triple (hinv I Hd h) (writerow h row) (fun _ => hinv I Hd h) (winv I).
Proof.
  destruct h as [p|]; intros w [Hw Hh]; unfold writerow, csv_writerow; simpl.
  - split; by apply I_write.
  - unfold write_stdout. by destruct (stdout_closed w).
Qed.

Lemma close_inv h : triple (hinv I Hd h) (close h) (fun _ => winv I) (winv I).
Proof. destruct h as [p|]; by intros w [Hw Hh]. Qed.

Lemma pure_inv {A} (m : M A) h :
  pure_m m -> triple (hinv I Hd h) m (fun _ => hinv I Hd h) (winv I).
Proof.
  intros Hm.
  eapply triple_weaken; [by apply (pure_triple m (hinv I Hd h))|done..|].
  by intros w [Hw _].
Qed.

Lemma bom_loop_inv net argv3 out grouped S :
  triple (hinv I Hd out) (bom_loop int net argv3 out grouped S)
    (fun _ => hinv I Hd out) (winv I).
Proof.
  revert S. induction grouped as [|g grouped IH]; intros S; simpl.
  - by apply triple_ret.
  - eapply triple_bind; [apply pure_inv, pure_bom_row|]. intros rs.
    eapply triple_bind; [apply writerow_inv|]. intros ?. apply IH.
Qed.

Lemma order_rows_loop_inv net argv3 supplier out grouped :
  triple (hinv I Hd out) (order_rows_loop int net argv3 supplier out grouped)
    (fun _ => hinv I Hd out) (winv I).
Proof.
  induction grouped as [|g grouped IH]; simpl.
  - by apply triple_ret.
  - eapply triple_bind; [|intros ?; apply IH].
    case_bool_decide.
    + eapply triple_bind; [apply pure_inv, pure_order_row|]. intros row.
      apply writerow_inv.
    + by apply triple_ret.
Qed.

Lemma order_loop_inv net argv2 argv3 grouped suppliers :
  (forall s, s ∈ suppliers -> Op (order_path argv2 s)) ->
  triple (winv I)
    (order_loop int can_open file__ stderr_repr net argv2 argv3 grouped
       suppliers)
    (fun _ => winv I) (winv I).
Proof.
  induction suppliers as [|s suppliers IH]; intros Hop; simpl.
  - by apply triple_ret.
  - eapply triple_bind; [apply open_or_stdout_inv, Hop; by left|].
    intros h.
    eapply triple_bind; [apply writerow_inv|]. intros ?.
    eapply triple_bind; [apply order_rows_loop_inv|]. intros ?.
    eapply triple_bind; [apply close_inv|]. intros ?.
    apply IH. intros s' Hs'. apply Hop. by right.
Qed.

Lemma main_inv argv :
  Op (bom_path (nth 2 argv "")) ->
  (forall s, Op (order_path (nth 2 argv "") s)) ->
  triple (winv I)
    (main int kicad_netlist can_open file__ stderr_repr set_iter argv)
    (fun _ => winv I) (winv I).
Proof.
  intros Hbom Hord. unfold main. destruct (negb _).
  - apply (triple_bind _ _ (winv I) (fun _ => winv I)).
    + by intros w Hw.
    + intros ?. by apply triple_raise.
  - eapply triple_bind.
    { unfold load_netlist. instantiate (1 := fun _ => (winv I)).
      destruct (kicad_netlist _);
        [by apply triple_ret | by apply triple_raise]. }
    intros net.
    eapply triple_bind; [by apply open_or_stdout_inv|]. intros h.
    eapply triple_bind; [apply writerow_inv|]. intros ?.
    eapply triple_bind; [apply bom_loop_inv|]. intros S.
    eapply triple_bind; [apply close_inv|]. intros ?.
    apply order_loop_inv. intros s _. apply Hord.
Qed.

End FsInvariant.

(** ** Output paths *)

Lemma string_app_inj_r (s1 s2 t : string) : s1 +:+ t = s2 +:+ t -> s1 = s2.
Proof.
  revert s2. induction s1 as [|c s1 IH]; intros [|d s2] H.
  - done.
  - apply (f_equal String.length) in H.
    rewrite string_app_cons in H. simpl in H.
    rewrite !string_app_length in H. simpl in H. lia.
  - apply (f_equal String.length) in H.
    rewrite string_app_cons in H. simpl in H.
    rewrite !string_app_length in H. simpl in H. lia.
  - rewrite !string_app_cons in H. injection H as -> H. f_equal. by apply IH.
Qed.

Lemma substring_app_prefix (a b : string) :
  substring 0 (String.length a) (a +:+ b) = a.
Proof.
  induction a as [|c a IH].
  - rewrite string_app_nil_l. by destruct b.
  - rewrite string_app_cons. simpl. by f_equal.
Qed.

(** [(stem + ext)[:-4]] is [stem] when [ext] has four characters. *)
Lemma drop_last4_app (stem ext : string) :
  String.length ext = 4%nat -> drop_last4 (stem +:+ ext) = stem.
Proof.
  intros Hext. unfold drop_last4. rewrite string_app_length, Hext.
  replace (String.length stem + 4 - 4)%nat with (String.length stem) by lia.
  apply substring_app_prefix.
Qed.

Lemma bom_path_ne_order_path argv2 s : bom_path argv2 ≠ order_path argv2 s.
Proof.
  unfold bom_path, order_path. intros H. apply String.app_inj in H.
  apply (f_equal String.length) in H.
  rewrite !string_app_length in H. simpl in H. lia.
Qed.

Lemma order_path_inj argv2 s1 s2 :
  order_path argv2 s1 = order_path argv2 s2 -> s1 = s2.
Proof.
  unfold order_path. intros H.
  apply String.app_inj in H. apply String.app_inj in H.
  by apply string_app_inj_r in H.
Qed.

(** ** Maps built by a run of inserts *)

Section FoldInsert.
Context {A : Type} (k : A -> string) (v : A -> string).

Lemma insert_all_snoc l a m :
  insert_all k v (l ++ [a]) m = <[k a := v a]> (insert_all k v l m).
Proof. unfold insert_all. by rewrite foldl_snoc. Qed.

Lemma insert_all_notin l m q :
  (forall a, a ∈ l -> q ≠ k a) -> insert_all k v l m !! q = m !! q.
Proof.
  induction l as [|a l IH] using rev_ind; intros Hq; [done|].
  rewrite insert_all_snoc, lookup_insert_ne.
  - apply IH. intros a' Ha'. apply Hq, elem_of_app. by left.
  - intros E. apply (Hq a); [|done]. apply elem_of_app. right. by left.
Qed.

Lemma insert_all_in l m a :
  Inj (=) (=) k -> a ∈ l -> insert_all k v l m !! k a = Some (v a).
Proof.
  intros Hinj. induction l as [|b l IH] using rev_ind; intros Ha.
  - by apply elem_of_nil in Ha.
  - rewrite insert_all_snoc.
    destruct (decide (k b = k a)) as [E|E].
    + apply Hinj in E. subst b. apply lookup_insert_eq.
    + rewrite lookup_insert_ne by done. apply IH.
      apply elem_of_app in Ha as [Ha|Ha]; [done|].
      apply list_elem_of_singleton in Ha. by subst.
Qed.

End FoldInsert.

(** ** The phases of [main] *)

Section Phases.
Variable int : string -> option Z.
Variable kicad_netlist : string -> option netlist.
Variable can_open : string -> bool.
Variable file__ : string.
Variable stderr_repr : string.
Variable set_iter : gset string -> list string.

Lemma open_or_stdout_eq path argv2 w :
  open_or_stdout can_open file__ stderr_repr path argv2 w
  = if can_open path
    then (World (<[path := ""]> (fs w)) (stdout w) (stdout_closed w) (stderr w),
          Ok (HFile path))
    else if stdout_closed w then (w, Raise ValueError)
    else (emit HStdout (open_message file__ stderr_repr argv2) w, Ok HStdout).
Proof.
  unfold open_or_stdout, try_except, open_file_writeUTF8.
  destruct (can_open path); [done|]. simpl.
  unfold bind, write_stdout. by destruct (stdout_closed w).
Qed.

Lemma open_or_stdout_writable path argv2 w :
  stdout_closed w = false ->
  exists h w',
    open_or_stdout can_open file__ stderr_repr path argv2 w = (w', Ok h)
    ∧ writable h w' ∧ stdout_closed w' = false.
Proof.
  intros Hc. rewrite open_or_stdout_eq.
  destruct (can_open path).
  - by eexists _, _.
  - rewrite Hc. by eexists _, _.
Qed.

Variable net : netlist.
Variable argv2 argv3 : string.
Variable boards : Z.
Variable grouped : list group.
Hypothesis boards_ok : int argv3 = Some boards.
Hypothesis per_ok : Forall (fun g => per_of int net g ≠ 0) grouped.

(** Lines 102-133 when the aggregate file opens. *)
Lemma bom_phase_ok w :
  can_open (bom_path argv2) = true ->
  (let! bfr_bom_file :=
     open_or_stdout can_open file__ stderr_repr (bom_path argv2) argv2 in
   exec! writerow bfr_bom_file bom_header in
   let! suppliers_in_use := bom_loop int net argv3 bfr_bom_file grouped ∅ in
   exec! close bfr_bom_file in
   ret suppliers_in_use) w
  = (World (<[bom_path argv2 := bom_text int net boards grouped]> (fs w))
           (stdout w) (stdout_closed w) (stderr w),
     Ok (suppliers_of net grouped)).
Proof.
  intros Hopen. unfold bind at 1. rewrite open_or_stdout_eq, Hopen.
  unfold bind at 1. rewrite writerow_emit by done.
  unfold bind at 1. rewrite (bom_loop_ok _ _ _ _ boards_ok) by done.
  rewrite emit_emit. simpl. rewrite append_file_insert.
  unfold bind at 1, ret. simpl.
  by rewrite string_app_nil_l, union_empty_r_L.
Qed.

(** Lines 135-156 when every order file opens. *)
Lemma order_loop_ok suppliers w :
  (forall s, s ∈ suppliers -> can_open (order_path argv2 s) = true) ->
  order_loop int can_open file__ stderr_repr net argv2 argv3 grouped suppliers w
  = (World (insert_all (order_path argv2) (order_text int net boards grouped)
                suppliers (fs w))
           (stdout w) (stdout_closed w) (stderr w),
     Ok tt).
Proof.
  revert w. induction suppliers as [|s suppliers IH]; intros w Hopen.
  - by destruct w.
  - simpl. unfold bind at 1.
    rewrite open_or_stdout_eq, Hopen by by left.
    unfold bind at 1. rewrite writerow_emit by done.
    unfold bind at 1.
    rewrite (order_rows_loop_ok _ _ _ _ boards_ok) by done.
    rewrite emit_emit. simpl. unfold bind at 1, ret at 1.
    rewrite IH by (intros s' Hs'; apply Hopen; by right).
    simpl. rewrite append_file_insert. by rewrite string_app_nil_l.
Qed.

End Phases.

(** ** The quoted-CSV reader on what the writer writes *)

Lemma csv_read_escape f cur fields recs rest :
  csv_read InField cur fields recs (csv_escape f +:+ rest)
  = csv_read InField (rev (list_ascii_of_string f) ++ cur) fields recs rest.
Proof.
  revert cur. induction f as [|c f IH]; intros cur; [done|].
  simpl csv_escape. simpl list_ascii_of_string. simpl rev.
  rewrite <- app_assoc. simpl app.
  destruct (decide (c = dquote)) as [->|Hc].
  - rewrite !string_app_cons. simpl. apply IH.
  - rewrite string_app_cons. simpl.
    rewrite decide_False by done. apply IH.
Qed.

Lemma finish_field_rev f : finish_field (rev (list_ascii_of_string f)) = f.
Proof.
  unfold finish_field.
  by rewrite rev_involutive, string_of_list_ascii_of_string.
Qed.

Lemma csv_read_quote st f cur fields recs rest :
  field_start st ->
  csv_read st cur fields recs (csv_quote f +:+ rest)
  = csv_read AfterQuote (rev (list_ascii_of_string f)) fields recs rest.
Proof.
  intros Hst. unfold csv_quote. rewrite string_app_cons, string_app_assoc.
  assert (csv_read st cur fields recs
            (String dquote (csv_escape f +:+ String dquote "" +:+ rest))
          = csv_read InField [] fields recs
              (csv_escape f +:+ String dquote "" +:+ rest)) as ->.
  { by destruct Hst as [-> | ->]. }
  by rewrite csv_read_escape, app_nil_r, string_app_cons.
Qed.

Lemma concat_cons2 (sep x y : string) (l : list string) :
  String.concat sep (x :: y :: l) = x +:+ sep +:+ String.concat sep (y :: l).
Proof. done. Qed.

Lemma csv_read_comma cur fields recs s :
  csv_read AfterQuote cur fields recs ("," +:+ s)
  = csv_read FieldStart [] (finish_field cur :: fields) recs s.
Proof. done. Qed.

Lemma csv_read_newline cur fields recs s :
  csv_read AfterQuote cur fields recs (newline +:+ s)
  = csv_read RecordStart [] [] (rev (finish_field cur :: fields) :: recs) s.
Proof. done. Qed.

(** One record read back: its fields join the records read so far. *)
Lemma csv_read_record st f fs cur fields recs rest :
  field_start st ->
  csv_read st cur fields recs (csv_record (f :: fs) +:+ rest)
  = csv_read RecordStart [] [] (rev (rev (f :: fs) ++ fields) :: recs) rest.
Proof.
  unfold csv_record. revert st f cur fields.
  induction fs as [|g fs IH]; intros st f cur fields Hst.
  - simpl map. simpl String.concat. rewrite string_app_assoc.
    rewrite (csv_read_quote _ _ _ _ _ _ Hst).
    by rewrite csv_read_newline, finish_field_rev.
  - change (map csv_quote (f :: g :: fs))
      with (csv_quote f :: csv_quote g :: map csv_quote fs).
    rewrite concat_cons2.
    change (csv_quote g :: map csv_quote fs) with (map csv_quote (g :: fs)).
    rewrite !string_app_assoc.
    rewrite (csv_read_quote _ _ _ _ _ _ Hst).
    rewrite csv_read_comma, finish_field_rev.
    rewrite <- string_app_assoc.
    rewrite (IH FieldStart g [] (f :: fields)) by by right.
    simpl rev. by rewrite <- !app_assoc.
Qed.

(** A whole text read back: the records, in order, field by field. *)
Lemma csv_read_lines records recs :
  csv_read RecordStart [] [] recs (csv_lines records)
  = Some (rev recs ++ records).
Proof.
  revert recs. induction records as [|r records IH]; intros recs.
  - simpl. by rewrite app_nil_r.
  - simpl csv_lines. destruct r as [|f fs].
    + change (csv_record []) with newline. unfold newline.
      rewrite string_app_cons, string_app_nil_l. simpl csv_read.
      rewrite IH. simpl rev. by rewrite <- app_assoc.
    + rewrite csv_read_record by by left.
      rewrite IH. rewrite app_nil_r, rev_involutive. simpl rev.
      by rewrite <- app_assoc.
Qed.

Lemma csv_parse_lines records : csv_parse (csv_lines records) = Some records.
Proof. apply csv_read_lines. Qed.

(** ** Numbers as text

    [str] of an integer is its decimal numeral: the decimal reader of the
    demo host reads it back as the same integer. *)

Lemma digit_of_pretty_char (d : N) :
  (d < 10)%N -> Demo.digit_of (pretty_N_char d) = Some (Z.of_N d).
Proof.
  intros Hd.
  assert (d = 0 ∨ d = 1 ∨ d = 2 ∨ d = 3 ∨ d = 4 ∨ d = 5 ∨ d = 6 ∨ d = 7
          ∨ d = 8 ∨ d = 9)%N as Hcases by lia.
  repeat (destruct Hcases as [->|Hcases]; [reflexivity|]). by subst.
Qed.

Lemma digits_of_digit c s acc b d :
  Demo.digit_of c = Some d ->
  Demo.digits (String c s) acc b = Demo.digits s (10 * acc + d) true.
Proof. intros H. simpl. by rewrite H. Qed.

Lemma digits_pretty_go (x : N) s b :
  (0 < x)%N ->
  Demo.digits (pretty_N_go x s) 0 b = Demo.digits s (Z.of_N x) true.
Proof.
  revert s b. induction (N.lt_wf_0 x) as [x _ IH]; intros s b Hx.
  rewrite pretty_N_go_step by done.
  pose proof (digit_of_pretty_char (x `mod` 10)
                ltac:(by apply N.mod_lt)) as Hd.
  pose proof (N.div_mod x 10 ltac:(done)) as Hdm.
  destruct (decide (x `div` 10 = 0)%N) as [Hz|Hnz].
  - rewrite Hz, pretty_N_go_0, (digits_of_digit _ _ _ _ _ Hd).
    f_equal. clear IH Hd. rewrite Hz in Hdm. lia.
  - rewrite IH; [|by apply N.div_lt|by apply N.neq_0_lt_0].
    rewrite (digits_of_digit _ _ _ _ _ Hd). f_equal. clear IH Hd.
    rewrite Hdm at 3. by rewrite N2Z.inj_add, N2Z.inj_mul.
Qed.

Lemma pretty_go_head (x : N) s :
  (0 < x)%N ->
  exists c t d, pretty_N_go x s = String c t ∧ Demo.digit_of c = Some d.
Proof.
  revert s. induction (N.lt_wf_0 x) as [x _ IH]; intros s Hx.
  rewrite pretty_N_go_step by done.
  destruct (decide (x `div` 10 = 0)%N) as [Hz|Hnz].
  - rewrite Hz, pretty_N_go_0. eexists _, _, _. split; [done|].
    apply digit_of_pretty_char. by apply N.mod_lt.
  - apply IH; [by apply N.div_lt | by apply N.neq_0_lt_0].
Qed.

Lemma int_of_digit_head c t d :
  Demo.digit_of c = Some d ->
  Demo.int (String c t) = Demo.digits (String c t) 0 false.
Proof.
  destruct c as [[] [] [] [] [] [] [] []]; intros H; try discriminate H;
    reflexivity.
Qed.

Lemma int_of_minus t :
  Demo.int (String "-" t) = Z.opp <$> Demo.digits t 0 false.
Proof. reflexivity. Qed.

Lemma int_reads_pretty_pos (p : positive) :
  Demo.int (pretty_N_go (Npos p) "") = Some (Zpos p).
Proof.
  destruct (pretty_go_head (Npos p) "" ltac:(done)) as (c & t & d & Hs & Hd).
  rewrite Hs, (int_of_digit_head _ _ _ Hd), <- Hs.
  by rewrite digits_pretty_go.
Qed.

Lemma int_reads_pretty (z : Z) : Demo.int (pretty z) = Some z.
Proof.
  destruct z as [|p|p].
  - reflexivity.
  - apply int_reads_pretty_pos.
  - change (pretty (Zneg p)) with ("-" +:+ pretty_N_go (Npos p) "").
    rewrite string_app_cons, string_app_nil_l, int_of_minus.
    by rewrite digits_pretty_go.
Qed.

Lemma int_reads_str z : Demo.int (str (PInt z)) = Some z.
Proof. apply int_reads_pretty. Qed.

(** ** The texts of a run, word by word *)

Lemma usage_text file__ :
  usage file__
  = "Usage  " +:+ file__ +:+ " <generic_netlist.xml> <output.csv> <QTY>"
    +:+ String (ascii_of_nat 10) "".
Proof.
  unfold usage, print_line, newline.
  change (String.concat " "
            ["Usage "; file__; "<generic_netlist.xml> <output.csv> <QTY>"])
    with ("Usage  " +:+ file__
          +:+ " <generic_netlist.xml> <output.csv> <QTY>").
  by rewrite <- !string_app_assoc.
Qed.

Lemma bom_text_records int net boards grouped :
  bom_text int net boards grouped
  = csv_lines
      (["Component"; "Qty per Unit"; "Units"; "Cost/Unit"; "Link";
        "Part Number"]
       :: ((fun g =>
              [getGroupField net g "Pretty Name";
               pretty (per_of int net g);
               pretty (units_value (len g) boards (per_of int net g));
               getGroupField net g "Cost/Unit"]
              ++ (if decide (getGroupField net g "Order From" = "") then []
                  else [getGroupField net g
                          (getGroupField net g "Order From" +:+ " Link");
                        getGroupField net g
                          (getGroupField net g "Order From" +:+ " P/N")]))
           <$> grouped)).
Proof.
  unfold bom_text, csv_text. rewrite fmap_cons, <- list_fmap_compose.
  f_equal. f_equal. apply list_fmap_ext. intros _ g _. simpl.
  unfold bom_row_value, order_from.
  by destruct (decide (getGroupField net g "Order From" = "")).
Qed.

Lemma order_text_records int net boards grouped s :
  order_text int net boards grouped s
  = csv_lines
      (["Component"; "Order Qty"; "Part Number"; "Link"]
       :: ((fun g =>
              [getGroupField net g "Pretty Name";
               pretty (units_value (len g) boards (per_of int net g));
               getGroupField net g (s +:+ " P/N");
               getGroupField net g (s +:+ " Link")])
           <$> filter (fun g => getGroupField net g "Order From" = s)
                 grouped)).
Proof.
  unfold order_text, csv_text. rewrite fmap_cons, <- list_fmap_compose.
  reflexivity.
Qed.

(** ** The properties of the specification *)

Lemma triple_fst {A} (m : M A) (P Q : world -> Prop) w :
  triple P m (fun _ => Q) Q -> P w -> Q (m w).1.
Proof.
  intros Hm Hw. specialize (Hm w Hw). by destruct (m w) as [w' [a|e]].
Qed.

Lemma units_value_one n boards : units_value n boards 1 = n * boards.
Proof.
  unfold units_value. rewrite Z.div_1_r, Z.mod_1_r.
  rewrite decide_True by done. lia.
Qed.

(** The number the script computes is the ceiling exactly when a zero
    remainder of [n * boards] comes with a zero remainder of [n]. *)
Lemma units_value_ceil_iff n boards per :
  units_value n boards per = ceil_div (n * boards) per
  <-> ((n * boards) mod per = 0 -> n mod per = 0).
Proof.
  unfold units_value, ceil_div.
  destruct (decide (n mod per = 0)) as [Hn|Hn].
  - assert ((n * boards) mod per = 0) as ->.
    { destruct (decide (per = 0)) as [->|Hp].
      - rewrite Z.mod_0_r in *. by subst.
      - rewrite <- Z.mul_mod_idemp_l, Hn by done. simpl. by apply Z.mod_0_l. }
    rewrite decide_True by done. tauto.
  - destruct (decide ((n * boards) mod per = 0)); split; try lia; try tauto.
Qed.

Lemma units_value_single_board n per :
  units_value n 1 per = ceil_div (n * 1) per.
Proof. apply units_value_ceil_iff. by rewrite Z.mul_1_r. Qed.

Section Claims.
Variable int : string -> option Z.
Variable kicad_netlist : string -> option netlist.
Variable can_open : string -> bool.
Variable file__ : string.
Variable stderr_repr : string.
Variable set_iter : gset string -> list string.

Local Abbreviation run :=
  (main int kicad_netlist can_open file__ stderr_repr set_iter).

(** With four arguments and a netlist that loads, the run is the
    aggregate phase followed by the order phase. *)
Lemma run_phases a0 a1 a2 a3 net w :
  kicad_netlist a1 = Some net ->
  run [a0; a1; a2; a3] w
  = (let! suppliers_in_use :=
       (let! bfr_bom_file :=
          open_or_stdout can_open file__ stderr_repr (bom_path a2) a2 in
        exec! writerow bfr_bom_file bom_header in
        let! suppliers_in_use :=
          bom_loop int net a3 bfr_bom_file (grouped_of net) ∅ in
        exec! close bfr_bom_file in
        ret suppliers_in_use) in
     order_loop int can_open file__ stderr_repr net a2 a3 (grouped_of net)
       (set_iter suppliers_in_use)) w.
Proof.
  intros Hnet. unfold main. simpl. unfold bind at 1, load_netlist.
  rewrite Hnet. unfold ret at 1, bind.
  destruct (open_or_stdout _ _ _ _ _ w) as [w1 [h|e]]; [|done].
  destruct (writerow h bom_header w1) as [w2 [[]|e]]; [|done].
  destruct (bom_loop _ _ _ _ _ _ w2) as [w3 [S|e]]; [|done].
  by destruct (close h w3) as [w4 [[]|e]].
Qed.

(** C8.  With an argument count other than four (the program name and
    three arguments) the run prints the usage line on standard error and
    exits with status 1; it leaves the file system and standard output
    as they were, so no output file is produced.  The usage line is the
    word Usage with a space after it, the path of the script and the three
    argument names, joined by single spaces as [print] joins its
    arguments, and a line feed. *)
Theorem wrong_argument_count_exits argv w :
  length argv ≠ 4%nat ->
  run argv w
  = (World (fs w) (stdout w) (stdout_closed w)
       (stderr w
        +:+ ("Usage  " +:+ file__
             +:+ " <generic_netlist.xml> <output.csv> <QTY>"
             +:+ String (ascii_of_nat 10) "")),
     Raise (SystemExit 1))
  ∧ exit_status (run argv w).2 = 1.
Proof.
  intros Hlen. rewrite <- usage_text. unfold main.
  destruct (length argv =? 4)%nat eqn:E.
  - apply Nat.eqb_eq in E. done.
  - done.
Qed.

(** C5.  A group whose "Qty/Unit" field parses as the integer 0 keeps
    that 0 as its quantity per unit (the default of 1 is for a failed
    parse only), the units computation raises [ZeroDivisionError], and
    the run ends with that error uncaught. *)
Theorem zero_qty_per_unit_divides_by_zero a0 a1 a2 a3 net boards g w :
  kicad_netlist a1 = Some net ->
  int a3 = Some boards ->
  g ∈ grouped_of net ->
  int (getGroupField net g "Qty/Unit") = Some 0 ->
  stdout_closed w = false ->
  qty_per_unit int net g w = (w, Ok 0)
  ∧ units int g a3 0 w = (w, Raise ZeroDivisionError)
  ∧ (run [a0; a1; a2; a3] w).2 = Raise ZeroDivisionError
  ∧ exit_status (run [a0; a1; a2; a3] w).2 = 1.
Proof.
  intros Hnet Hb Hg Hz Hc.
  assert (per_of int net g = 0) as Hper by (unfold per_of; by rewrite Hz).
  assert ((run [a0; a1; a2; a3] w).2 = Raise ZeroDivisionError) as Hrun.
  { rewrite (run_phases _ _ _ _ _ _ Hnet). unfold bind at 1 2.
    destruct (open_or_stdout_writable can_open file__ stderr_repr
                (bom_path a2) a2 w Hc) as (h & w1 & -> & Hw & Hc1).
    unfold bind at 1. rewrite writerow_emit by done.
    unfold bind at 1.
    assert ((bom_loop int net a3 h (grouped_of net) ∅
               (emit h (csv_record (map str bom_header)) w1)).2
            = Raise ZeroDivisionError) as Hloop.
    { apply (bom_loop_zero _ _ _ _ Hb); [|by apply writable_emit].
      apply Exists_exists. by exists g. }
    destruct (bom_loop _ _ _ _ _ _ _) as [w2 [S|e]]; simpl in Hloop;
      [done | by simplify_eq]. }
  split_and!.
  - rewrite qty_per_unit_eq. by rewrite Hper.
  - by apply units_zero with boards.
  - done.
  - by rewrite Hrun.
Qed.

(** C6.  A group whose "Qty/Unit" field does not parse as an integer
    (a missing field reads as the empty string, which does not parse)
    gets quantity per unit 1 without any error: the units computation
    returns, both row builders return their rows, and the aggregate loop
    goes on to write the row and to process the remaining groups. *)
Theorem unparsable_qty_per_unit_defaults_to_one
    net a3 boards g rest out supplier S w :
  int (getGroupField net g "Qty/Unit") = None ->
  int a3 = Some boards ->
  qty_per_unit int net g w = (w, Ok 1)
  ∧ units int g a3 1 w = (w, Ok (len g * boards))
  ∧ (exists row S',
       bom_row int net a3 g S w = (w, Ok (row, S'))
       ∧ row !! 1%nat = Some (PInt 1)
       ∧ row !! 2%nat = Some (PInt (len g * boards))
       ∧ bom_loop int net a3 out (g :: rest) S w
         = (exec! writerow out row in bom_loop int net a3 out rest S') w)
  ∧ (exists row,
       order_row int net a3 supplier g w = (w, Ok row)
       ∧ row !! 1%nat = Some (PInt (len g * boards))).
Proof.
  intros Hnone Hb.
  assert (per_of int net g = 1) as Hper by (unfold per_of; by rewrite Hnone).
  assert (per_of int net g ≠ 0) as Hnz by (rewrite Hper; lia).
  split_and!.
  - rewrite qty_per_unit_eq. by rewrite Hper.
  - rewrite (units_ok _ _ _ _ _ _ Hb) by lia. by rewrite units_value_one.
  - eexists _, _. split; [by apply bom_row_ok|].
    unfold bom_row_value. rewrite Hper, units_value_one. split_and!; try done.
    simpl. unfold bind at 1. rewrite (bom_row_ok _ _ _ _ _ _ _ Hb Hnz).
    unfold bom_row_value. by rewrite Hper, units_value_one.
  - eexists. split; [by apply order_row_ok|].
    unfold order_row_value. by rewrite Hper, units_value_one.
Qed.

(** A run in which the files it writes can be opened and nothing else
    fails: the final world. *)
Lemma run_ok_on_paths a0 a1 a2 a3 net boards w :
  kicad_netlist a1 = Some net ->
  int a3 = Some boards ->
  Forall (fun g => per_of int net g ≠ 0) (grouped_of net) ->
  can_open (bom_path a2) = true ->
  (forall s, s ∈ set_iter (suppliers_of net (grouped_of net)) ->
     can_open (order_path a2 s) = true) ->
  run [a0; a1; a2; a3] w
  = (World (insert_all (order_path a2)
              (order_text int net boards (grouped_of net))
              (set_iter (suppliers_of net (grouped_of net)))
              (<[bom_path a2 := bom_text int net boards (grouped_of net)]>
                 (fs w)))
           (stdout w) (stdout_closed w) (stderr w),
     Ok tt).
Proof.
  intros Hnet Hb Hper Hbom Hord. rewrite (run_phases _ _ _ _ _ _ Hnet).
  unfold bind at 1.
  rewrite (bom_phase_ok _ _ _ _ _ _ _ _ _ Hb Hper) by done.
  by rewrite (order_loop_ok _ _ _ _ _ _ _ _ _ Hb Hper).
Qed.

(** The aggregate file after a run whose aggregate phase completes,
    however the order phase after it ends. *)
Lemma bom_file_written a0 a1 a2 a3 net boards w :
  kicad_netlist a1 = Some net ->
  int a3 = Some boards ->
  Forall (fun g => per_of int net g ≠ 0) (grouped_of net) ->
  can_open (bom_path a2) = true ->
  fs (run [a0; a1; a2; a3] w).1 !! bom_path a2
  = Some (bom_text int net boards (grouped_of net)).
Proof.
  intros Hnet Hb Hper Hopen.
  rewrite (run_phases _ _ _ _ _ _ Hnet). unfold bind at 1.
  rewrite (bom_phase_ok _ _ _ _ _ _ _ _ _ Hb Hper) by done.
  set (text := bom_text int net boards (grouped_of net)).
  apply (triple_fst _
           (winv (fun m => m !! bom_path a2 = Some text))
           (winv (fun m => m !! bom_path a2 = Some text))).
  - apply (order_loop_inv int can_open file__ stderr_repr _
             (fun p _ => p ≠ bom_path a2) (fun p => p ≠ bom_path a2)).
    + intros p m Hp Hm. split; [|done]. by rewrite lookup_insert_ne.
    + intros p r m Hm Hp. split; [|done].
      unfold append_file. by rewrite lookup_alter_ne.
    + intros s _ E. by apply (bom_path_ne_order_path a2 s).
  - unfold winv. simpl. apply lookup_insert_eq.
Qed.

(** C3.  When the aggregate file opens and no group has quantity per
    unit zero, the file at the aggregate path holds the header record,
    whose fields are Component, Qty per Unit, Units, Cost/Unit, Link and
    Part Number, followed by one record per group, in group order.  A
    group's record is pretty name, quantity per unit, units, cost per
    unit, and then, only when its "Order From" field [s] is not empty, the
    "[s] Link" and "[s] P/N" fields; with an empty "Order From" the record
    stops after four fields.  The two numbers are written as decimal
    numerals, which read back as the quantity per unit and the units of
    the group.  Read with a quoted-CSV reader the file gives these records
    field by field.  This holds however the order phase after it ends. *)
Theorem aggregate_bom_has_one_row_per_group a0 a1 a2 a3 net boards w :
  kicad_netlist a1 = Some net ->
  int a3 = Some boards ->
  Forall (fun g => per_of int net g ≠ 0) (grouped_of net) ->
  can_open (bom_path a2) = true ->
  let record g :=
    [getGroupField net g "Pretty Name";
     pretty (per_of int net g);
     pretty (units_value (len g) boards (per_of int net g));
     getGroupField net g "Cost/Unit"]
    ++ (if decide (getGroupField net g "Order From" = "") then []
        else [getGroupField net g
                (getGroupField net g "Order From" +:+ " Link");
              getGroupField net g
                (getGroupField net g "Order From" +:+ " P/N")]) in
  let records :=
    ["Component"; "Qty per Unit"; "Units"; "Cost/Unit"; "Link"; "Part Number"]
    :: (record <$> grouped_of net) in
  exists text,
    fs (run [a0; a1; a2; a3] w).1 !! bom_path a2 = Some text
    ∧ text = csv_lines records
    ∧ csv_parse text = Some records
    ∧ length records = S (length (grouped_of net))
    ∧ Forall (fun g =>
                Demo.int (pretty (per_of int net g)) = Some (per_of int net g)
                ∧ Demo.int
                    (pretty (units_value (len g) boards (per_of int net g)))
                  = Some (units_value (len g) boards (per_of int net g)))
        (grouped_of net).
Proof.
  intros Hnet Hb Hper Hopen record records.
  exists (csv_lines records). split_and!.
  - rewrite (bom_file_written _ _ _ _ _ _ _ Hnet Hb Hper Hopen).
    by rewrite bom_text_records.
  - done.
  - apply csv_parse_lines.
  - unfold records. simpl. by rewrite length_fmap.
  - apply Forall_forall. intros g _. split; apply int_reads_pretty.
Qed.

(** C4.  In a run where the files it writes can be opened and no group
    has quantity per unit zero, an order file exists for exactly the
    supplier names that are the non-empty "Order From" value of some
    group.  The file of such a supplier [s] holds the header record, whose
    fields are Component, Order Qty, Part Number and Link, and then the
    records of the groups whose "Order From" is [s], in group order, each
    being pretty name, order quantity as a decimal numeral, "[s] P/N",
    "[s] Link"; read with a quoted-CSV reader the file gives these records
    field by field.  Every path that is neither the aggregate path nor the
    order path of a supplier in use is left as it was, so no order file
    appears for a supplier no group is ordered from. *)
Theorem order_files_for_suppliers_in_use a0 a1 a2 a3 net boards w :
  kicad_netlist a1 = Some net ->
  int a3 = Some boards ->
  Forall (fun g => per_of int net g ≠ 0) (grouped_of net) ->
  let in_use s :=
    s ≠ ""
    ∧ exists g,
        g ∈ grouped_of net ∧ getGroupField net g "Order From" = s in
  can_open (bom_path a2) = true ->
  (forall s, in_use s -> can_open (order_path a2 s) = true) ->
  (forall X s, s ∈ set_iter X <-> s ∈ X) ->
  let record s g :=
    [getGroupField net g "Pretty Name";
     pretty (units_value (len g) boards (per_of int net g));
     getGroupField net g (s +:+ " P/N");
     getGroupField net g (s +:+ " Link")] in
  let sheet s :=
    ["Component"; "Order Qty"; "Part Number"; "Link"]
    :: (record s
        <$> filter (fun g => getGroupField net g "Order From" = s)
              (grouped_of net)) in
  (run [a0; a1; a2; a3] w).2 = Ok tt
  ∧ (forall s, in_use s ->
       exists text,
         fs (run [a0; a1; a2; a3] w).1 !! order_path a2 s = Some text
         ∧ text = csv_lines (sheet s)
         ∧ csv_parse text = Some (sheet s))
  ∧ Forall (fun g =>
              Demo.int (pretty (units_value (len g) boards (per_of int net g)))
              = Some (units_value (len g) boards (per_of int net g)))
      (grouped_of net)
  ∧ (forall q, q ≠ bom_path a2 ->
       (forall s, in_use s -> q ≠ order_path a2 s) ->
       fs (run [a0; a1; a2; a3] w).1 !! q = fs w !! q).
Proof.
  intros Hnet Hb Hper in_use Hbom Hord Hiter record sheet.
  assert (forall s, s ∈ set_iter (suppliers_of net (grouped_of net)) ->
            can_open (order_path a2 s) = true) as Hopen.
  { intros s Hs. by apply Hord, elem_of_suppliers_of, Hiter. }
  rewrite (run_ok_on_paths _ _ _ _ _ _ _ Hnet Hb Hper Hbom Hopen). simpl.
  split_and!; [done|..].
  - intros s Hs. exists (csv_lines (sheet s)). split_and!.
    + rewrite insert_all_in;
        [|intros ?? E; by apply order_path_inj in E
         |by apply Hiter, elem_of_suppliers_of].
      by rewrite order_text_records.
    + done.
    + apply csv_parse_lines.
  - apply Forall_forall. intros g _. apply int_reads_pretty.
  - intros q Hq Hothers. rewrite insert_all_notin.
    + by rewrite lookup_insert_ne.
    + intros s Hs. apply Hothers. by apply elem_of_suppliers_of, Hiter.
Qed.

(** C9, amended.  The output argument is taken with its last four
    characters removed: when it is [stem] followed by a four-character
    extension, a run that completes (the netlist loads, the board count is
    an integer, no group has quantity per unit zero) and in which the
    files named below can be opened for writing leaves the aggregate BOM
    at [stem] followed by "_BOM.csv" and, for every supplier [s] in use,
    that supplier's order sheet at [stem], "_", [s], "-order.csv".
    Nothing is asked of any other path. *)
Theorem output_paths_drop_extension a0 a1 stem ext a3 net boards w :
  String.length ext = 4%nat ->
  kicad_netlist a1 = Some net ->
  int a3 = Some boards ->
  Forall (fun g => per_of int net g ≠ 0) (grouped_of net) ->
  can_open (stem +:+ "_BOM.csv") = true ->
  (forall s, s ∈ suppliers_of net (grouped_of net) ->
     can_open (stem +:+ "_" +:+ s +:+ "-order.csv") = true) ->
  (forall X s, s ∈ set_iter X <-> s ∈ X) ->
  let w' := (run [a0; a1; stem +:+ ext; a3] w).1 in
  fs w' !! (stem +:+ "_BOM.csv")
    = Some (bom_text int net boards (grouped_of net))
  ∧ (forall s, s ∈ suppliers_of net (grouped_of net) ->
       fs w' !! (stem +:+ "_" +:+ s +:+ "-order.csv")
       = Some (order_text int net boards (grouped_of net) s)).
Proof.
  intros Hext Hnet Hb Hper Hbom Hord Hiter w'. unfold w'.
  pose proof (drop_last4_app stem ext Hext) as Hstem.
  assert (bom_path (stem +:+ ext) = stem +:+ "_BOM.csv") as Hbp
    by (unfold bom_path; by rewrite Hstem).
  assert (forall s, order_path (stem +:+ ext) s
                    = stem +:+ "_" +:+ s +:+ "-order.csv") as Hop
    by (intros s; unfold order_path; by rewrite Hstem).
  rewrite (run_ok_on_paths _ _ _ _ _ _ _ Hnet Hb Hper).
  - simpl. split.
    + rewrite insert_all_notin.
      * rewrite Hbp. apply lookup_insert_eq.
      * intros s _ E. apply (bom_path_ne_order_path (stem +:+ ext) s).
        by rewrite Hbp.
    + intros s Hs. rewrite <- Hop.
      rewrite insert_all_in;
        [done|intros ?? E; by apply order_path_inj in E|].
      by apply Hiter.
  - by rewrite Hbp.
  - intros s Hs. rewrite Hop. by apply Hord, Hiter.
Qed.

(** Two failed opens in one run: the aggregate BOM goes to standard
    output, which line 133 then closes; the handler of the next failed
    open prints to the closed stream and raises. *)
Lemma run_fallback_twice a0 a1 a2 a3 net boards s rest w :
  kicad_netlist a1 = Some net ->
  int a3 = Some boards ->
  Forall (fun g => per_of int net g ≠ 0) (grouped_of net) ->
  stdout_closed w = false ->
  can_open (bom_path a2) = false ->
  set_iter (suppliers_of net (grouped_of net)) = s :: rest ->
  can_open (order_path a2 s) = false ->
  run [a0; a1; a2; a3] w
  = (World (fs w)
           (stdout w +:+ open_message file__ stderr_repr a2
            +:+ bom_text int net boards (grouped_of net))
           true (stderr w),
     Raise ValueError).
Proof.
  intros Hnet Hb Hper Hc Hbom Hiter Hs. rewrite (run_phases _ _ _ _ _ _ Hnet).
  unfold bind at 1 2. rewrite open_or_stdout_eq, Hbom, Hc.
  unfold bind at 1. rewrite writerow_emit by done.
  unfold bind at 1. rewrite (bom_loop_ok _ _ _ _ Hb) by done.
  rewrite !emit_emit. unfold bind at 1. simpl close. unfold ret.
  rewrite union_empty_r_L, Hiter. simpl order_loop. unfold bind at 1.
  by rewrite open_or_stdout_eq, Hs.
Qed.

End Claims.

Section Quoting.
Variable int : string -> option Z.
Variable kicad_netlist : string -> option netlist.
Variable can_open : string -> bool.
Variable file__ : string.
Variable stderr_repr : string.
Variable set_iter : gset string -> list string.


End Quoting.

(** ** Grouping *)

Lemma myEqu_iff a b : myEqu a b = true <-> key a = key b.
Proof.
  unfold myEqu, key. split.
  - destruct (str_ne (getValue a) _) eqn:E1; [done|].
    destruct (str_ne (getPartName a) _) eqn:E2; [done|].
    destruct (str_ne (getFootprint a) _) eqn:E3; [done|].
    destruct (bool_ne (getDNP a) _) eqn:E4; [done|]. intros _.
    apply str_ne_false in E1, E2, E3.
    unfold bool_ne in E4. apply negb_false_iff, Bool.eqb_prop in E4.
    congruence.
  - intros [= -> -> -> ->].
    rewrite !(proj2 (str_ne_false _ _) eq_refl).
    unfold bool_ne. by rewrite Bool.eqb_reflx.
Qed.

Lemma myEqu_fields a b :
  myEqu a b = true
  <-> getValue a = getValue b ∧ getPartName a = getPartName b
      ∧ getFootprint a = getFootprint b ∧ getDNP a = getDNP b.
Proof.
  rewrite myEqu_iff. unfold key. split.
  - by intros [= -> -> -> ->].
  - by intros (-> & -> & -> & ->).
Qed.

Lemma elem_of_concat {A} (x : A) (ls : list (list A)) :
  x ∈ concat ls <-> exists l, x ∈ l ∧ l ∈ ls.
Proof.
  induction ls as [|l ls IH]; simpl.
  - split; [by intros ?%elem_of_nil | by intros (? & _ & ?%elem_of_nil)].
  - rewrite elem_of_app, IH. split.
    + intros [H|(l' & H1 & H2)]; [exists l | exists l'];
        (split; [done|]); [by left | by right].
    + intros (l' & H1 & [->|H2]%elem_of_cons); [by left|]. right. by exists l'.
Qed.

Lemma place_perm c gs : concat (place myEqu c gs) ≡ₚ c :: concat gs.
Proof.
  induction gs as [|g gs IH]; simpl; [done|].
  destruct g as [|r g]; simpl.
  - apply IH.
  - destruct (myEqu c r); simpl.
    + rewrite <- !app_assoc. simpl.
      rewrite <- Permutation_middle. by rewrite Permutation_swap.
    + rewrite IH. rewrite <- Permutation_middle.
      by rewrite (Permutation_swap c r).
Qed.

Lemma place_avoids k c gs :
  key c ≠ k -> Forall (avoids k) gs -> Forall (avoids k) (place myEqu c gs).
Proof.
  intros Hc Hgs. induction Hgs as [|g gs Hg Hgs IH]; simpl.
  - repeat constructor. done.
  - destruct g as [|r g]; [by constructor|].
    destruct (myEqu c r).
    + constructor; [|done]. apply Forall_app. split; [done|].
      by repeat constructor.
    + by constructor.
Qed.

Lemma place_keyed c gs : keyed gs -> keyed (place myEqu c gs).
Proof.
  induction gs as [|g gs IH]; simpl.
  - intros _. split; [|done]. exists (key c). split; [|done].
    split; [done|]. by repeat constructor.
  - intros [(k & [Hne Hk] & Hav) Hgs].
    destruct g as [|r g]; [done|].
    destruct (myEqu c r) eqn:E; simpl.
    + split; [|done]. exists k. split; [|done]. split; [done|].
      apply (Forall_app _ (r :: g) [c]). split; [done|].
      repeat constructor. apply myEqu_iff in E. rewrite E.
      by apply Forall_cons in Hk as [? _].
    + split; [|by apply IH]. exists k. split; [done|].
      apply place_avoids; [|done]. intros Hc.
      apply Forall_cons in Hk as [Hr _].
      assert (myEqu c r = true) by (apply myEqu_iff; congruence). congruence.
Qed.

Lemma groupComponents_perm_keyed cs gs :
  keyed gs ->
  concat (fold_left (fun gs c => place myEqu c gs) cs gs) ≡ₚ concat gs ++ cs
  ∧ keyed (fold_left (fun gs c => place myEqu c gs) cs gs).
Proof.
  revert gs. induction cs as [|c cs IH]; intros gs Hgs; simpl.
  - by rewrite app_nil_r.
  - destruct (IH (place myEqu c gs) (place_keyed c gs Hgs)) as [Hp Hk].
    split; [|done]. rewrite Hp, place_perm.
    by rewrite <- Permutation_middle.
Qed.

(** In keyed groups, two members share a key exactly when they sit in the
    same group. *)
Lemma keyed_same_group gs i j g h a b :
  keyed gs ->
  gs !! i = Some g -> gs !! j = Some h -> a ∈ g -> b ∈ h ->
  (i = j <-> key a = key b).
Proof.
  revert i j. induction gs as [|g0 gs IH]; intros i j Hk Hi Hj Ha Hb; [done|].
  destruct Hk as [(k & [_ Hsame] & Hav) Hk].
  rewrite Forall_forall in Hsame. rewrite Forall_forall in Hav.
  destruct i as [|i], j as [|j]; simpl in Hi, Hj.
  - simplify_eq. split; [intros _|done].
    rewrite (Hsame a), (Hsame b); done.
  - simplify_eq. split; [done|]. intros E. exfalso.
    assert (h ∈ gs) as Hh by by eapply list_elem_of_lookup_2.
    specialize (Hav h Hh). unfold avoids in Hav. rewrite Forall_forall in Hav.
    apply (Hav b Hb). rewrite <- E. by apply Hsame.
  - simplify_eq. split; [done|]. intros E. exfalso.
    assert (g ∈ gs) as Hg by by eapply list_elem_of_lookup_2.
    specialize (Hav g Hg). unfold avoids in Hav. rewrite Forall_forall in Hav.
    apply (Hav a Ha). rewrite E. by apply Hsame.
  - rewrite <- (IH i j Hk Hi Hj Ha Hb). lia.
Qed.

(** C2.  The grouping puts every component in exactly one group: the
    groups together hold the components given, each as often as it was
    given, and a component is found at one group index only.  Members of
    two groups agree on value, part name, footprint and DNP flag exactly
    when the two groups are the same one, and [myEqu] holds of two
    components exactly when they agree on these four. *)
Theorem grouping_by_four_fields (components : list comp) :
  let grouped := spec_groupComponents myEqu components in
  concat grouped ≡ₚ components
  ∧ (forall c, c ∈ components ->
       exists i g, grouped !! i = Some g ∧ c ∈ g
                   ∧ forall j h, grouped !! j = Some h -> c ∈ h -> j = i)
  ∧ (forall i j g h a b,
       grouped !! i = Some g -> grouped !! j = Some h -> a ∈ g -> b ∈ h ->
       (i = j
        <-> getValue a = getValue b ∧ getPartName a = getPartName b
            ∧ getFootprint a = getFootprint b ∧ getDNP a = getDNP b))
  ∧ (forall a b,
       myEqu a b = true
       <-> getValue a = getValue b ∧ getPartName a = getPartName b
           ∧ getFootprint a = getFootprint b ∧ getDNP a = getDNP b).
Proof.
  intros grouped.
  destruct (groupComponents_perm_keyed components [] I) as [Hperm Hkeyed].
  fold (spec_groupComponents myEqu components) in Hperm, Hkeyed.
  fold grouped in Hperm, Hkeyed. simpl in Hperm.
  split_and!.
  - done.
  - intros c Hc. rewrite <- Hperm in Hc.
    apply elem_of_concat in Hc as (g & Hcg & Hg).
    apply list_elem_of_lookup in Hg as [i Hi].
    exists i, g. split_and!; [done..|].
    intros j h Hj Hch. by apply (keyed_same_group grouped j i h g c c).
  - intros i j g h a b Hi Hj Ha Hb.
    rewrite (keyed_same_group grouped i j g h a b) by done.
    rewrite <- myEqu_iff. apply myEqu_fields.
  - apply myEqu_fields.
Qed.

(** ** The model at concrete inputs *)

(** The specification's own example: five members, two boards, three per
    unit give four. *)
Example units_value_5_2_3 : units_value 5 2 3 = 4 ∧ ceil_div (5 * 2) 3 = 4.
Proof. split; reflexivity. Qed.

(** C1.  One member, two boards, two per unit: the ceiling of 1 * 2 / 2 is
    1, the script computes 2, because the remainder it tests is that of the
    member count alone; the aggregate file carries the 2. *)
Theorem units_overcount_with_several_boards :
  ceil_div (len [Demo.R3] * 2) 2 = 1
  ∧ units Demo.int [Demo.R3] "2" 2 Demo.world0 = (Demo.world0, Ok 2)
  ∧ fs (demo_main [Demo.R3] (fun _ => true) (demo_argv "out.csv" "2")
          Demo.world0).1 !! "out_BOM.csv"
    = Some (csv_text
              [bom_header;
               [PStr "Resistor, 10k"; PInt 2; PInt 2; PStr "0.10";
                PStr digikey_link; PStr digikey_pn]]).
Proof.
  split; [reflexivity|]. split; [reflexivity|].
  vm_compute. reflexivity.
Qed.

(** C7.  No path can be opened and one group is ordered from Digikey: the
    aggregate BOM goes to standard output after the message, standard
    output is then closed with it, and the order phase, falling back in
    its turn, raises [ValueError] when it prints its message.  The run
    ends there with status 1 and the order sheet written nowhere. *)
Theorem second_fallback_to_stdout_raises :
  let r := demo_main [Demo.R1] (fun _ => false) (demo_argv "out.csv" "1")
             Demo.world0 in
  r.2 = Raise ValueError
  ∧ exit_status r.2 = 1
  ∧ stdout_closed r.1 = true
  ∧ stdout r.1
    = open_message "bom_bfr_format.py" "<stderr>" "out.csv"
      +:+ csv_text
            [bom_header;
             [PStr "Resistor, 10k"; PInt 2; PInt 1; PStr "0.10";
              PStr digikey_link; PStr digikey_pn]]
  ∧ fs r.1 = ∅.
Proof. intros r. vm_compute. by repeat split. Qed.

(** C9 as stated fails: given the argument "board", nothing is written at
    "board_BOM.csv" or "board_Digikey-order.csv"; the files are at
    "b_BOM.csv" and "b_Digikey-order.csv". *)
Lemma output_argument_loses_four_characters :
  let w' := (demo_main [Demo.R1] (fun _ => true) (demo_argv "board" "1")
               Demo.world0).1 in
  fs w' !! ("board" +:+ "_BOM.csv") = None
  ∧ fs w' !! ("board" +:+ "_" +:+ "Digikey" +:+ "-order.csv") = None
  ∧ is_Some (fs w' !! "b_BOM.csv")
  ∧ is_Some (fs w' !! "b_Digikey-order.csv")
  ∧ suppliers_of (Demo.net [Demo.R1]) (grouped_of (Demo.net [Demo.R1]))
    = {[ "Digikey" ]}.
Proof.
  intros w'. split_and!.
  - by vm_compute.
  - by vm_compute.
  - vm_compute. by eexists.
  - vm_compute. by eexists.
  - by vm_compute.
Qed.

(** ** The hypotheses are met: each conditional statement at a run *)

Lemma demo_per_nonzero :
  Forall (fun g => per_of Demo.int (Demo.net demo_board) g ≠ 0)
    (grouped_of (Demo.net demo_board)).
Proof. repeat constructor; by vm_compute. Qed.

Lemma wrong_argument_count_exits_witness :
  demo_main [Demo.R1] all_open ["bom_bfr_format.py"; "in.xml"] Demo.world0
  = (World ∅ "" false
       ("Usage  bom_bfr_format.py <generic_netlist.xml> <output.csv> <QTY>"
        +:+ String (ascii_of_nat 10) ""),
     Raise (SystemExit 1))
  ∧ exit_status
      (demo_main [Demo.R1] all_open ["bom_bfr_format.py"; "in.xml"]
         Demo.world0).2 = 1.
Proof.
  apply (wrong_argument_count_exits Demo.int
           (fun _ => Some (Demo.net [Demo.R1]))
           all_open "bom_bfr_format.py" "<stderr>" elements
           ["bom_bfr_format.py"; "in.xml"] Demo.world0).
  simpl. lia.
Defined.

Lemma zero_qty_per_unit_divides_by_zero_witness :
  qty_per_unit Demo.int (Demo.net [Demo.R1; Demo.U1]) [Demo.U1] Demo.world0
  = (Demo.world0, Ok 0)
  ∧ units Demo.int [Demo.U1] "2" 0 Demo.world0
    = (Demo.world0, Raise ZeroDivisionError)
  ∧ (demo_main [Demo.R1; Demo.U1] all_open (demo_argv "out.csv" "2")
       Demo.world0).2 = Raise ZeroDivisionError
  ∧ exit_status
      (demo_main [Demo.R1; Demo.U1] all_open (demo_argv "out.csv" "2")
         Demo.world0).2 = 1.
Proof.
  apply (zero_qty_per_unit_divides_by_zero Demo.int
           (fun _ => Some (Demo.net [Demo.R1; Demo.U1]))
           all_open "bom_bfr_format.py" "<stderr>" elements
           "bom_bfr_format.py" "in.xml" "out.csv" "2"
           (Demo.net [Demo.R1; Demo.U1]) 2 [Demo.U1] Demo.world0).
  - reflexivity.
  - reflexivity.
  - vm_compute. right. left.
  - reflexivity.
  - reflexivity.
Defined.

Lemma unparsable_qty_per_unit_defaults_to_one_witness :
  qty_per_unit Demo.int (Demo.net [Demo.C1]) [Demo.C1] Demo.world0
  = (Demo.world0, Ok 1)
  ∧ units Demo.int [Demo.C1] "3" 1 Demo.world0 = (Demo.world0, Ok (1 * 3)).
Proof.
  pose proof (unparsable_qty_per_unit_defaults_to_one Demo.int
                (Demo.net [Demo.C1]) "3" 3 [Demo.C1] [] HStdout "Digikey" ∅
                Demo.world0 eq_refl eq_refl) as (H1 & H2 & _).
  exact (conj H1 H2).
Defined.

Lemma demo_outputs_bom : open_among demo_outputs (bom_path "out.csv") = true.
Proof. by vm_compute. Qed.

Lemma demo_outputs_order s :
  s ≠ ""
  ∧ (exists g,
       g ∈ grouped_of (Demo.net demo_board)
       ∧ getGroupField (Demo.net demo_board) g "Order From" = s) ->
  open_among demo_outputs (order_path "out.csv" s) = true.
Proof.
  intros [Hne (g & Hg & <-)].
  replace (grouped_of (Demo.net demo_board))
    with [[Demo.R1; Demo.R2]; [Demo.C1]] in Hg by by vm_compute.
  apply elem_of_cons in Hg as [->|Hg]; [by vm_compute|].
  apply list_elem_of_singleton in Hg as ->. by destruct Hne.
Qed.

Lemma demo_outputs_stem_bom :
  open_among demo_outputs ("out" +:+ "_BOM.csv") = true.
Proof. by vm_compute. Qed.

Lemma demo_outputs_stem_order s :
  s ∈ suppliers_of (Demo.net demo_board) (grouped_of (Demo.net demo_board)) ->
  open_among demo_outputs ("out" +:+ "_" +:+ s +:+ "-order.csv") = true.
Proof.
  replace (suppliers_of (Demo.net demo_board)
             (grouped_of (Demo.net demo_board)))
    with ({[ "Digikey" ]} : gset string) by by vm_compute.
  intros ->%elem_of_singleton. by vm_compute.
Qed.

Lemma digikey_in_use :
  "Digikey" ≠ ""
  ∧ (exists g,
       g ∈ grouped_of (Demo.net demo_board)
       ∧ getGroupField (Demo.net demo_board) g "Order From" = "Digikey").
Proof.
  split; [done|]. exists [Demo.R1; Demo.R2]. split; [|reflexivity]. left.
Qed.

Lemma aggregate_bom_has_one_row_per_group_witness :
  exists text,
    fs (demo_main demo_board (open_among demo_outputs)
          (demo_argv "out.csv" "3") Demo.world0).1 !! "out_BOM.csv"
    = Some text
    ∧ csv_parse text
      = Some [["Component"; "Qty per Unit"; "Units"; "Cost/Unit"; "Link";
               "Part Number"];
              ["Resistor, 10k"; "2"; "3"; "0.10";
               "https://digikey.example/10k"; "311-10KGRCT-ND"];
              ["Cap 100n"; "1"; "3"; "0.02"]].
Proof.
  destruct (aggregate_bom_has_one_row_per_group Demo.int
              (fun _ => Some (Demo.net demo_board))
              (open_among demo_outputs) "bom_bfr_format.py" "<stderr>"
              elements
              "bom_bfr_format.py" "in.xml" "out.csv" "3"
              (Demo.net demo_board) 3 Demo.world0
              eq_refl eq_refl demo_per_nonzero demo_outputs_bom)
    as (text & Hfile & _ & Hparse & _).
  exists text. split; [exact Hfile | exact Hparse].
Defined.

Lemma order_files_for_suppliers_in_use_witness :
  (demo_main demo_board (open_among demo_outputs) (demo_argv "out.csv" "3")
     Demo.world0).2 = Ok tt
  ∧ exists text,
      fs (demo_main demo_board (open_among demo_outputs)
            (demo_argv "out.csv" "3") Demo.world0).1
        !! "out_Digikey-order.csv"
      = Some text
      ∧ csv_parse text
        = Some [["Component"; "Order Qty"; "Part Number"; "Link"];
                ["Resistor, 10k"; "3"; "311-10KGRCT-ND";
                 "https://digikey.example/10k"]].
Proof.
  destruct (order_files_for_suppliers_in_use Demo.int
              (fun _ => Some (Demo.net demo_board))
              (open_among demo_outputs) "bom_bfr_format.py" "<stderr>"
              elements
              "bom_bfr_format.py" "in.xml" "out.csv" "3"
              (Demo.net demo_board) 3 Demo.world0
              eq_refl eq_refl demo_per_nonzero demo_outputs_bom
              demo_outputs_order
              (fun X s => elem_of_elements X s)) as (Hend & Hfiles & _).
  split; [exact Hend|].
  destruct (Hfiles "Digikey" digikey_in_use) as (text & Hfile & _ & Hparse).
  exists text. split; [exact Hfile | exact Hparse].
Defined.

(** The specification's example: Digikey is ordered from, Mouser is not,
    and no Mouser order file appears. *)
Example no_order_file_for_unused_supplier :
  let w' := (demo_main demo_board all_open
               (demo_argv "out.csv" "3") Demo.world0).1 in
  dom (fs w') = {[ "out_BOM.csv"; "out_Digikey-order.csv" ]}
  ∧ fs w' !! "out_Mouser-order.csv" = None.
Proof. intros w'. split; vm_compute; reflexivity. Qed.

Lemma output_paths_drop_extension_witness :
  fs (main Demo.int (fun _ => Some (Demo.net demo_board))
        (open_among demo_outputs) "bom_bfr_format.py" "<stderr>" elements
        ["bom_bfr_format.py"; "in.xml"; "out" +:+ ".csv"; "3"]
        Demo.world0).1 !! ("out" +:+ "_BOM.csv")
  = Some (bom_text Demo.int (Demo.net demo_board) 3
            (grouped_of (Demo.net demo_board))).
Proof.
  exact (proj1 (output_paths_drop_extension Demo.int
                  (fun _ => Some (Demo.net demo_board))
                  (open_among demo_outputs)
                  "bom_bfr_format.py" "<stderr>" elements
                  "bom_bfr_format.py" "in.xml" "out" ".csv" "3"
                  (Demo.net demo_board) 3 Demo.world0
                  eq_refl eq_refl eq_refl demo_per_nonzero
                  demo_outputs_stem_bom demo_outputs_stem_order
                  (fun X s => elem_of_elements X s))).
Defined.

(** * Further properties of the script *)

(** ** The order quantity, lines 124 and 152 *)

Lemma mod_mul_of_mod n boards per :
  n mod per = 0 -> (n * boards) mod per = 0.
Proof.
  intros Hn. destruct (decide (per = 0)) as [->|Hp].
  - rewrite Z.mod_0_r in *. by subst.
  - rewrite <- Z.mul_mod_idemp_l, Hn by done. simpl. by apply Z.mod_0_l.
Qed.

Lemma units_value_bounds n boards per :
  0 < per ->
  n * boards <= units_value n boards per * per
  ∧ ceil_div (n * boards) per <= units_value n boards per
      <= ceil_div (n * boards) per + 1.
Proof.
  intros Hp. unfold units_value, ceil_div.
  pose proof (Z.div_mod (n * boards) per ltac:(lia)) as Hdm.
  pose proof (Z.mod_pos_bound (n * boards) per Hp) as Hb.
  pose proof (mod_mul_of_mod n boards per) as Hm.
  destruct (decide (n mod per = 0)) as [Hn|Hn].
  - specialize (Hm Hn). rewrite decide_True by done. nia.
  - destruct (decide ((n * boards) mod per = 0)); nia.
Qed.

Section UnitsExtras.
Variable int : string -> option Z.

(** X1.  With a positive quantity per unit the order quantity always
    covers the need: the units times the quantity per unit are at least
    the members times the boards, and the units are the ceiling of the
    quotient or one more. *)
Theorem units_cover_the_need g argv3 boards per w :
  int argv3 = Some boards ->
  0 < per ->
  exists u,
    units int g argv3 per w = (w, Ok u)
    ∧ len g * boards <= u * per
    ∧ ceil_div (len g * boards) per <= u <= ceil_div (len g * boards) per + 1.
Proof.
  intros Hb Hp. exists (units_value (len g) boards per). split.
  - apply units_ok; [done | lia].
  - by apply units_value_bounds.
Qed.

(** X2.  For a quantity per unit other than zero the order quantity is the
    ceiling of members times boards over quantity per unit exactly when a
    zero remainder of the product comes with a zero remainder of the member
    count.  So it is the ceiling for one board and whenever the quantity
    per unit divides the member count; for zero boards it is 0 or 1, as the
    quantity per unit divides the member count or not. *)
Theorem units_ceiling_cases g argv3 boards per w :
  int argv3 = Some boards ->
  per ≠ 0 ->
  exists u,
    units int g argv3 per w = (w, Ok u)
    ∧ (u = ceil_div (len g * boards) per
       <-> ((len g * boards) mod per = 0 -> len g mod per = 0))
    ∧ (boards = 1 -> u = ceil_div (len g) per)
    ∧ (len g mod per = 0 -> u = len g * boards / per)
    ∧ (boards = 0 -> u = if decide (len g mod per = 0) then 0 else 1).
Proof.
  intros Hb Hp. exists (units_value (len g) boards per). split_and!.
  - by apply units_ok.
  - apply units_value_ceil_iff.
  - intros ->. rewrite units_value_single_board. by rewrite Z.mul_1_r.
  - intros Hn. unfold units_value. rewrite decide_True by done. lia.
  - intros ->. unfold units_value. rewrite Z.mul_0_r, Z.div_0_l by done.
    by destruct (decide _).
Qed.

End UnitsExtras.

(** ** The two row builders side by side *)

Section RowExtras.
Variable int : string -> option Z.

Lemma bom_row_bad_boards net g argv3 S w :
  int argv3 = None ->
  bom_row int net argv3 g S w = (w, Raise ValueError).
Proof.
  intros Hb. unfold bom_row, bind. rewrite qty_per_unit_eq.
  by rewrite (units_bad_boards _ _ _ _ _ Hb).
Qed.

Lemma order_row_bad_boards net g argv3 supplier w :
  int argv3 = None ->
  order_row int net argv3 supplier g w = (w, Raise ValueError).
Proof.
  intros Hb. unfold order_row, bind. rewrite qty_per_unit_eq.
  by rewrite (units_bad_boards _ _ _ _ _ Hb).
Qed.

Lemma order_row_zero net g argv3 boards supplier w :
  int argv3 = Some boards -> per_of int net g = 0 ->
  order_row int net argv3 supplier g w = (w, Raise ZeroDivisionError).
Proof.
  intros Hb Hp. unfold order_row, bind. rewrite qty_per_unit_eq, Hp.
  by rewrite (units_zero _ _ _ _ _ Hb).
Qed.

(** The three ways a row computation can go. *)
Lemma row_cases net g argv3 :
  (int argv3 = None)
  ∨ (exists boards, int argv3 = Some boards ∧ per_of int net g = 0)
  ∨ (exists boards, int argv3 = Some boards ∧ per_of int net g ≠ 0).
Proof.
  destruct (int argv3) as [boards|]; [|by left]. right.
  destruct (decide (per_of int net g = 0)); [left | right]; by exists boards.
Qed.

(** X3.  The order-sheet row of a group is cut from its aggregate row.
    When the aggregate row of a group with a supplier is computed, it has
    six cells (name, quantity per unit, units, cost, link, part number) and
    the order row for that supplier is name, units, part number, link: the
    same quantity, link and part number swapped.  When the aggregate row
    raises, the order row raises the same exception, for any supplier. *)
Theorem order_row_follows_bom_row net g argv3 S w :
  (forall row S',
     bom_row int net argv3 g S w = (w, Ok (row, S')) ->
     getGroupField net g "Order From" ≠ "" ->
     exists name per u cost link pn,
       row = [name; per; u; cost; link; pn]
       ∧ order_row int net argv3 (getGroupField net g "Order From") g w
         = (w, Ok [name; u; pn; link]))
  ∧ (forall e supplier,
       bom_row int net argv3 g S w = (w, Raise e) ->
       order_row int net argv3 supplier g w = (w, Raise e)).
Proof.
  destruct (row_cases net g argv3)
    as [Hb | [(boards & Hb & Hp) | (boards & Hb & Hp)]].
  - rewrite (bom_row_bad_boards _ _ _ _ _ Hb). split.
    + intros row S' [=].
    + intros e supplier [= <-]. by apply order_row_bad_boards.
  - rewrite (bom_row_zero _ _ _ _ _ _ _ Hb Hp). split.
    + intros row S' [=].
    + intros e supplier [= <-]. by apply order_row_zero with boards.
  - rewrite (bom_row_ok _ _ _ _ _ _ _ Hb Hp). split.
    + intros row S' [= <- _] Hsrc.
      rewrite (order_row_ok _ _ _ _ _ _ _ Hb Hp).
      unfold bom_row_value, order_row_value, order_from.
      rewrite decide_False by done. by eexists _, _, _, _, _, _.
    + intros e supplier [=].
Qed.

End RowExtras.

(** ** Runs that stop early, and runs with nothing to do *)

Section EarlyStops.
Variable int : string -> option Z.
Variable kicad_netlist : string -> option netlist.
Variable can_open : string -> bool.
Variable file__ : string.
Variable stderr_repr : string.
Variable set_iter : gset string -> list string.

Lemma bom_loop_app net argv3 out l1 l2 S w :
  bom_loop int net argv3 out (l1 ++ l2) S w
  = (let! S' := bom_loop int net argv3 out l1 S in
     bom_loop int net argv3 out l2 S') w.
Proof.
  revert S w. induction l1 as [|g l1 IH]; intros S w; [reflexivity|].
  change ((g :: l1) ++ l2) with (g :: (l1 ++ l2)).
  cbn [bom_loop]. unfold bind.
  destruct (bom_row int net argv3 g S w) as [w1 [rs|e]]; [|reflexivity].
  destruct (writerow out rs.1 w1) as [w2 [[]|e]]; [|reflexivity].
  rewrite IH. reflexivity.
Qed.

Lemma bom_loop_stops_at_zero net argv3 boards out pre g post S w :
  int argv3 = Some boards ->
  Forall (fun g => per_of int net g ≠ 0) pre ->
  per_of int net g = 0 ->
  writable out w ->
  bom_loop int net argv3 out (pre ++ g :: post) S w
  = (emit out (csv_text (bom_row_value int net boards <$> pre)) w,
     Raise ZeroDivisionError).
Proof.
  intros Hb Hpre Hg Hw. rewrite bom_loop_app. unfold bind at 1.
  rewrite (bom_loop_ok _ _ _ _ Hb) by done. simpl. unfold bind at 1.
  by rewrite (bom_row_zero _ _ _ _ _ _ _ Hb Hg).
Qed.

Lemma bom_loop_bad_boards net argv3 out g rest S w :
  int argv3 = None ->
  bom_loop int net argv3 out (g :: rest) S w = (w, Raise ValueError).
Proof.
  intros Hb. simpl. unfold bind at 1.
  by rewrite (bom_row_bad_boards _ _ _ _ _ _ Hb).
Qed.

(** The aggregate file right after the header has gone out. *)
Lemma header_written a2 w :
  emit (HFile (bom_path a2)) (csv_record (map str bom_header))
    (World (<[bom_path a2 := ""]> (fs w)) (stdout w) (stdout_closed w)
       (stderr w))
  = World (<[bom_path a2 := csv_text [bom_header]]> (fs w))
      (stdout w) (stdout_closed w) (stderr w).
Proof.
  simpl. rewrite append_file_insert, string_app_nil_l.
  unfold csv_text. simpl. by rewrite string_app_nil_r.
Qed.

Lemma set_iter_empty :
  (forall X s, s ∈ set_iter X <-> s ∈ X) -> set_iter ∅ = [].
Proof.
  intros Hiter. destruct (set_iter ∅) as [|s l] eqn:E; [done|].
  assert (s ∈ (∅ : gset string)) as Hs by (apply Hiter; rewrite E; by left).
  by apply not_elem_of_empty in Hs.
Qed.

(** X4.  A quantity per unit of zero stops the run in the middle of the
    aggregate file: the file is left with the header and the rows of the
    groups before the first such group, no order file is made, and the
    run ends with the uncaught [ZeroDivisionError]. *)
Theorem zero_quantity_leaves_partial_bom a0 a1 a2 a3 net boards pre g post w :
  kicad_netlist a1 = Some net ->
  int a3 = Some boards ->
  grouped_of net = pre ++ g :: post ->
  Forall (fun g => per_of int net g ≠ 0) pre ->
  int (getGroupField net g "Qty/Unit") = Some 0 ->
  can_open (bom_path a2) = true ->
  main int kicad_netlist can_open file__ stderr_repr set_iter
    [a0; a1; a2; a3] w
  = (World
       (<[bom_path a2 :=
            csv_text (bom_header :: (bom_row_value int net boards <$> pre))]>
          (fs w))
       (stdout w) (stdout_closed w) (stderr w),
     Raise ZeroDivisionError).
Proof.
  intros Hnet Hb Hgrouped Hpre Hz Hopen.
  assert (per_of int net g = 0) as Hg by (unfold per_of; by rewrite Hz).
  rewrite (run_phases _ _ _ _ _ _ _ _ _ _ _ _ Hnet).
  unfold bind at 1 2. rewrite open_or_stdout_eq, Hopen.
  unfold bind at 1. rewrite writerow_emit by done.
  unfold bind at 1. rewrite Hgrouped.
  rewrite (bom_loop_stops_at_zero _ _ _ _ _ _ _ _ _ Hb Hpre Hg) by done.
  rewrite emit_emit. simpl. by rewrite append_file_insert, string_app_nil_l.
Qed.

(** X5.  The board count is read inside the loop, outside any [try]: when
    it is not an integer and there is at least one group, the run ends with
    the uncaught [ValueError] of [int(sys.argv[3])], the aggregate file
    holding the header alone. *)
Theorem bad_board_count_raises a0 a1 a2 a3 net g rest w :
  kicad_netlist a1 = Some net ->
  int a3 = None ->
  grouped_of net = g :: rest ->
  can_open (bom_path a2) = true ->
  main int kicad_netlist can_open file__ stderr_repr set_iter
    [a0; a1; a2; a3] w
  = (World (<[bom_path a2 := csv_text [bom_header]]> (fs w))
       (stdout w) (stdout_closed w) (stderr w),
     Raise ValueError).
Proof.
  intros Hnet Hb Hgrouped Hopen.
  rewrite (run_phases _ _ _ _ _ _ _ _ _ _ _ _ Hnet).
  unfold bind at 1 2. rewrite open_or_stdout_eq, Hopen.
  unfold bind at 1. rewrite writerow_emit by done.
  unfold bind at 1. rewrite Hgrouped.
  rewrite (bom_loop_bad_boards _ _ _ _ _ _ _ Hb). by rewrite header_written.
Qed.

(** X6.  With no group at all the run succeeds whatever the board count
    argument is, integer or not: the aggregate file gets the header alone
    and no order file is made. *)
Theorem no_groups_header_only a0 a1 a2 a3 net w :
  kicad_netlist a1 = Some net ->
  grouped_of net = [] ->
  can_open (bom_path a2) = true ->
  (forall X s, s ∈ set_iter X <-> s ∈ X) ->
  main int kicad_netlist can_open file__ stderr_repr set_iter
    [a0; a1; a2; a3] w
  = (World (<[bom_path a2 := csv_text [bom_header]]> (fs w))
       (stdout w) (stdout_closed w) (stderr w),
     Ok tt).
Proof.
  intros Hnet Hgrouped Hopen Hiter.
  rewrite (run_phases _ _ _ _ _ _ _ _ _ _ _ _ Hnet).
  unfold bind at 1 2. rewrite open_or_stdout_eq, Hopen.
  unfold bind at 1. rewrite writerow_emit by done.
  unfold bind at 1. rewrite Hgrouped. unfold bind, ret. cbn [bom_loop close].
  unfold ret. rewrite (set_iter_empty Hiter). cbn [order_loop]. unfold ret.
  by rewrite <- header_written.
Qed.

End EarlyStops.

(** ** One output that cannot be opened *)

Section OneFallback.
Variable int : string -> option Z.
Variable kicad_netlist : string -> option netlist.
Variable can_open : string -> bool.
Variable file__ : string.
Variable stderr_repr : string.
Variable set_iter : gset string -> list string.
Variable net : netlist.
Variable a2 a3 : string.
Variable boards : Z.
Hypothesis boards_ok : int a3 = Some boards.
Hypothesis per_ok : Forall (fun g => per_of int net g ≠ 0) (grouped_of net).

Lemma order_loop_app l1 l2 w :
  order_loop int can_open file__ stderr_repr net a2 a3 (grouped_of net)
    (l1 ++ l2) w
  = (exec! order_loop int can_open file__ stderr_repr net a2 a3
             (grouped_of net) l1 in
     order_loop int can_open file__ stderr_repr net a2 a3 (grouped_of net) l2)
      w.
Proof.
  revert w. induction l1 as [|s l1 IH]; intros w; [reflexivity|].
  change ((s :: l1) ++ l2) with (s :: (l1 ++ l2)).
  cbn [order_loop]. unfold bind.
  destruct (open_or_stdout _ _ _ _ _ w) as [w1 [h|e]]; [|reflexivity].
  destruct (writerow h order_header w1) as [w2 [[]|e]]; [|reflexivity].
  destruct (order_rows_loop _ _ _ _ _ _ w2) as [w3 [[]|e]]; [|reflexivity].
  destruct (close h w3) as [w4 [[]|e]]; [|reflexivity].
  rewrite IH. reflexivity.
Qed.

(** Lines 102-133 when the aggregate file does not open and standard
    output is open. *)
Lemma bom_phase_fallback w :
  stdout_closed w = false ->
  can_open (bom_path a2) = false ->
  (let! bfr_bom_file :=
     open_or_stdout can_open file__ stderr_repr (bom_path a2) a2 in
   exec! writerow bfr_bom_file bom_header in
   let! suppliers_in_use :=
     bom_loop int net a3 bfr_bom_file (grouped_of net) ∅ in
   exec! close bfr_bom_file in
   ret suppliers_in_use) w
  = (World (fs w)
       (stdout w +:+ open_message file__ stderr_repr a2
        +:+ bom_text int net boards (grouped_of net))
       true (stderr w),
     Ok (suppliers_of net (grouped_of net))).
Proof.
  intros Hc Hopen. unfold bind at 1. rewrite open_or_stdout_eq, Hopen, Hc.
  unfold bind at 1. rewrite writerow_emit by done.
  unfold bind at 1. rewrite (bom_loop_ok _ _ _ _ boards_ok) by done.
  rewrite !emit_emit. unfold bind, ret. cbn [close emit fs stdout
    stdout_closed stderr]. by rewrite union_empty_r_L.
Qed.

(** One supplier whose order file does not open, standard output open. *)
Lemma order_loop_one_fallback s w :
  stdout_closed w = false ->
  can_open (order_path a2 s) = false ->
  order_loop int can_open file__ stderr_repr net a2 a3 (grouped_of net) [s] w
  = (World (fs w)
       (stdout w +:+ open_message file__ stderr_repr a2
        +:+ order_text int net boards (grouped_of net) s)
       true (stderr w),
     Ok tt).
Proof.
  intros Hc Hopen. cbn [order_loop]. unfold bind at 1.
  rewrite open_or_stdout_eq, Hopen, Hc.
  unfold bind at 1. rewrite writerow_emit by done.
  unfold bind at 1.
  rewrite (order_rows_loop_ok _ _ _ _ boards_ok) by done.
  rewrite !emit_emit. unfold bind, ret. by cbn.
Qed.

(** X7.  When only the aggregate file cannot be opened, the run is
    completed: the message and the whole aggregate BOM go to standard
    output, which is closed afterwards, and every supplier's order file is
    written as usual. *)
Theorem aggregate_fallback_recovers a0 a1 w :
  kicad_netlist a1 = Some net ->
  stdout_closed w = false ->
  can_open (bom_path a2) = false ->
  (forall s, can_open (order_path a2 s) = true) ->
  main int kicad_netlist can_open file__ stderr_repr set_iter
    [a0; a1; a2; a3] w
  = (World
       (insert_all (order_path a2) (order_text int net boards (grouped_of net))
          (set_iter (suppliers_of net (grouped_of net))) (fs w))
       (stdout w +:+ open_message file__ stderr_repr a2
        +:+ bom_text int net boards (grouped_of net))
       true (stderr w),
     Ok tt).
Proof.
  intros Hnet Hc Hbom Hord.
  rewrite (run_phases _ _ _ _ _ _ _ _ _ _ _ _ Hnet).
  unfold bind at 1. rewrite bom_phase_fallback by done.
  by rewrite (order_loop_ok _ _ _ _ _ _ _ _ _ boards_ok per_ok).
Qed.

(** X8.  When the aggregate file opens and exactly one supplier's order
    file cannot be opened, the run is completed as well: that supplier's
    sheet goes to standard output after the message, standard output is
    closed, and the suppliers visited before and after it get their files. *)
Theorem order_fallback_recovers a0 a1 pre s post w :
  kicad_netlist a1 = Some net ->
  stdout_closed w = false ->
  can_open (bom_path a2) = true ->
  set_iter (suppliers_of net (grouped_of net)) = pre ++ s :: post ->
  (forall s', s' ∈ pre ++ post -> can_open (order_path a2 s') = true) ->
  can_open (order_path a2 s) = false ->
  main int kicad_netlist can_open file__ stderr_repr set_iter
    [a0; a1; a2; a3] w
  = (World
       (insert_all (order_path a2) (order_text int net boards (grouped_of net))
          (pre ++ post)
          (<[bom_path a2 := bom_text int net boards (grouped_of net)]> (fs w)))
       (stdout w +:+ open_message file__ stderr_repr a2
        +:+ order_text int net boards (grouped_of net) s)
       true (stderr w),
     Ok tt).
Proof.
  intros Hnet Hc Hbom Hiter Hothers Hs.
  rewrite (run_phases _ _ _ _ _ _ _ _ _ _ _ _ Hnet).
  unfold bind at 1.
  rewrite (bom_phase_ok _ _ _ _ _ _ _ _ _ boards_ok per_ok) by done.
  rewrite Hiter, order_loop_app. unfold bind at 1.
  rewrite (order_loop_ok _ _ _ _ _ _ _ _ _ boards_ok per_ok)
    by (intros s' Hs'; apply Hothers, elem_of_app; by left).
  change (s :: post) with ([s] ++ post). rewrite order_loop_app.
  unfold bind at 1. rewrite order_loop_one_fallback by done.
  rewrite (order_loop_ok _ _ _ _ _ _ _ _ _ boards_ok per_ok)
    by (intros s' Hs'; apply Hothers, elem_of_app; by right).
  cbn [fs stdout stdout_closed stderr]. unfold insert_all.
  by rewrite foldl_app.
Qed.

End OneFallback.

(** ** What a run leaves alone *)

Section Footprint.
Variable int : string -> option Z.
Variable kicad_netlist : string -> option netlist.
Variable can_open : string -> bool.
Variable file__ : string.
Variable stderr_repr : string.
Variable set_iter : gset string -> list string.

(** X9.  Whatever the arguments and however the run ends, the only paths
    whose content can change are the aggregate path and the order paths
    built from the output argument: every other path keeps the content it
    had, or stays absent. *)
Theorem only_output_paths_touched argv w q :
  q ≠ bom_path (nth 2 argv "") ->
  (forall s, q ≠ order_path (nth 2 argv "") s) ->
  fs (main int kicad_netlist can_open file__ stderr_repr set_iter argv w).1
    !! q
  = fs w !! q.
Proof.
  intros Hbom Hord.
  apply (triple_fst _ (winv (fun m => m !! q = fs w !! q))
           (winv (fun m => m !! q = fs w !! q))); [|done].
  apply (main_inv int kicad_netlist can_open file__ stderr_repr set_iter _
           (fun p _ => p ≠ q) (fun p => p ≠ q)).
  - intros p m Hp Hm. split; [|done]. by rewrite lookup_insert_ne.
  - intros p r m Hm Hp. split; [|done].
    unfold append_file. by rewrite lookup_alter_ne.
  - done.
  - intros s E. by apply (Hord s).
Qed.

(** A property of the world that no change to the file system, no text
    appended to standard output and no closing of standard output can
    break is kept by every step of a run with four arguments. *)
Section WorldInvariant.
Variable J : world -> Prop.
Hypothesis J_fs : forall w m,
  J w -> J (World m (stdout w) (stdout_closed w) (stderr w)).
Hypothesis J_out : forall w s,
  J w -> J (World (fs w) (stdout w +:+ s) (stdout_closed w) (stderr w)).
Hypothesis J_close : forall w,
  J w -> J (World (fs w) (stdout w) true (stderr w)).

Lemma write_keeps h s : triple J (write h s) (fun _ => J) J.
Proof.
  destruct h as [p|]; intros w Hw; simpl.
  - by apply J_fs.
  - unfold write_stdout. destruct (stdout_closed w) eqn:Hc; [done|].
    rewrite <- Hc. by apply J_out.
Qed.

Lemma writerow_keeps h row : triple J (writerow h row) (fun _ => J) J.
Proof. apply write_keeps. Qed.

Lemma close_keeps h : triple J (close h) (fun _ => J) J.
Proof. destruct h as [p|]; intros w Hw; simpl; [done|]. by apply J_close. Qed.

Lemma open_or_stdout_keeps path argv2 :
  triple J (open_or_stdout can_open file__ stderr_repr path argv2)
    (fun _ => J) J.
Proof.
  unfold open_or_stdout. apply triple_try with (R' := J).
  - intros w Hw. unfold open_file_writeUTF8.
    destruct (can_open path); [|done]. by apply J_fs.
  - done.
  - eapply triple_bind; [apply (write_keeps HStdout)|].
    intros ?. by apply triple_ret.
Qed.

Lemma bom_loop_keeps net argv3 out grouped S :
  triple J (bom_loop int net argv3 out grouped S) (fun _ => J) J.
Proof.
  revert S. induction grouped as [|g grouped IH]; intros S; simpl.
  - by apply triple_ret.
  - eapply triple_bind; [apply pure_triple, pure_bom_row|]. intros rs.
    eapply triple_bind; [apply writerow_keeps|]. intros ?. apply IH.
Qed.

Lemma order_rows_loop_keeps net argv3 supplier out grouped :
  triple J (order_rows_loop int net argv3 supplier out grouped)
    (fun _ => J) J.
Proof.
  induction grouped as [|g grouped IH]; simpl.
  - by apply triple_ret.
  - eapply triple_bind; [|intros ?; apply IH].
    case_bool_decide.
    + eapply triple_bind; [apply pure_triple, pure_order_row|]. intros row.
      apply writerow_keeps.
    + by apply triple_ret.
Qed.

Lemma order_loop_keeps net argv2 argv3 grouped suppliers :
  triple J
    (order_loop int can_open file__ stderr_repr net argv2 argv3 grouped
       suppliers)
    (fun _ => J) J.
Proof.
  induction suppliers as [|s suppliers IH]; simpl.
  - by apply triple_ret.
  - eapply triple_bind; [apply open_or_stdout_keeps|]. intros h.
    eapply triple_bind; [apply writerow_keeps|]. intros ?.
    eapply triple_bind; [apply order_rows_loop_keeps|]. intros ?.
    eapply triple_bind; [apply close_keeps|]. intros ?. apply IH.
Qed.

Lemma main_keeps argv :
  length argv = 4%nat ->
  triple J (main int kicad_netlist can_open file__ stderr_repr set_iter argv)
    (fun _ => J) J.
Proof.
  intros Hlen. unfold main. rewrite Hlen. simpl negb. cbv iota.
  eapply triple_bind.
  { unfold load_netlist. instantiate (1 := fun _ => J).
    destruct (kicad_netlist _);
      [by apply triple_ret | by apply triple_raise]. }
  intros net.
  eapply triple_bind; [apply open_or_stdout_keeps|]. intros h.
  eapply triple_bind; [apply writerow_keeps|]. intros ?.
  eapply triple_bind; [apply bom_loop_keeps|]. intros S.
  eapply triple_bind; [apply close_keeps|]. intros ?.
  apply order_loop_keeps.
Qed.

End WorldInvariant.

(** X10.  A run with four arguments that ends normally has written
    nothing on standard error, also when an output file could not be
    opened: the message of a failed open goes to standard output.  And
    however a run with four arguments ends, what was on standard output
    before stays there: the run only appends to it. *)
Theorem four_arguments_leave_stderr_alone argv w :
  length argv = 4%nat ->
  let r := main int kicad_netlist can_open file__ stderr_repr set_iter argv w in
  (r.2 = Ok tt -> stderr r.1 = stderr w)
  ∧ exists text, stdout r.1 = stdout w +:+ text.
Proof.
  intros Hlen r. split.
  - intros _.
    apply (triple_fst _ (fun w1 => stderr w1 = stderr w)
             (fun w1 => stderr w1 = stderr w)); [|done].
    by apply main_keeps.
  - apply (triple_fst _ (fun w1 => exists text, stdout w1 = stdout w +:+ text)
             (fun w1 => exists text, stdout w1 = stdout w +:+ text)).
    + apply main_keeps; [done| |done|done].
      intros w1 s [text Ht]. exists (text +:+ s). simpl.
      by rewrite Ht, string_app_assoc.
    + exists "". by rewrite string_app_nil_r.
Qed.

End Footprint.

(** ** The exceptions a run can end with *)

Lemma may_raise_ret {A} (a : A) E : may_raise E (ret a).
Proof. intros w w' e [=]. Qed.

Lemma may_raise_raise {A} (e : exn) (E : exn -> Prop) :
  E e -> may_raise E (@raise A e).
Proof. intros He w w' e' [= _ <-]. done. Qed.

Lemma may_raise_bind {A B} (m : M A) (k : A -> M B) E :
  may_raise E m -> (forall a, may_raise E (k a)) -> may_raise E (bind m k).
Proof.
  intros Hm Hk w w' e. unfold bind.
  destruct (m w) as [w1 [a|e1]] eqn:Em.
  - apply Hk.
  - intros [= _ <-]. by eapply Hm.
Qed.

Lemma may_raise_try {A} (m h : M A) (caught : exn) (E' E : exn -> Prop) :
  may_raise E' m ->
  (forall e, E' e -> e ≠ caught -> E e) ->
  may_raise E h ->
  may_raise E (try_except m caught h).
Proof.
  intros Hm Hpass Hh w w' e. unfold try_except.
  destruct (m w) as [w1 [a|e1]] eqn:Em; [done|].
  case_decide as Hc.
  - apply Hh.
  - intros [= _ <-]. apply Hpass; [by eapply Hm | done].
Qed.

Section Escapes.
Variable int : string -> option Z.
Variable kicad_netlist : string -> option netlist.
Variable can_open : string -> bool.
Variable file__ : string.
Variable stderr_repr : string.
Variable set_iter : gset string -> list string.

Lemma write_stdout_raises s : may_raise loop_exn (write_stdout s).
Proof.
  intros w w' e. unfold write_stdout.
  destruct (stdout_closed w); [|done]. intros [= _ <-]. by left.
Qed.

Lemma writerow_raises h row : may_raise loop_exn (writerow h row).
Proof.
  destruct h as [p|]; [by intros w w' e [=]|]. apply write_stdout_raises.
Qed.

Lemma close_raises h : may_raise loop_exn (close h).
Proof. destruct h as [p|]; by intros w w' e [=]. Qed.

(** The [IOError] of a failed open is always caught. *)
Lemma open_or_stdout_raises path argv2 :
  may_raise loop_exn (open_or_stdout can_open file__ stderr_repr path argv2).
Proof.
  unfold open_or_stdout.
  apply may_raise_try with (E' := fun e => e = IOError).
  - intros w w' e. unfold open_file_writeUTF8.
    destruct (can_open path); [done|]. by intros [= _ <-].
  - by intros e -> ?.
  - apply may_raise_bind; [apply write_stdout_raises|].
    intros ?. apply may_raise_ret.
Qed.

Lemma py_int_raises s : may_raise loop_exn (py_int int s).
Proof.
  unfold py_int. destruct (int s); [apply may_raise_ret|].
  apply may_raise_raise. by left.
Qed.

Lemma qty_per_unit_raises net g : may_raise loop_exn (qty_per_unit int net g).
Proof.
  apply may_raise_try with (E' := fun e => e = ValueError).
  - intros w w' e. unfold py_int. destruct (int _); [done|].
    by intros [= _ <-].
  - by intros e -> ?.
  - apply may_raise_ret.
Qed.

Lemma units_raises g argv3 per : may_raise loop_exn (units int g argv3 per).
Proof.
  unfold units.
  apply may_raise_bind; [apply py_int_raises | intros boards].
  apply may_raise_bind.
  { unfold floordiv. case_decide; [|apply may_raise_ret].
    apply may_raise_raise. by right. }
  intros q. apply may_raise_bind; [|intros r; apply may_raise_ret].
  unfold pymod. case_decide; [|apply may_raise_ret].
  apply may_raise_raise. by right.
Qed.

Lemma bom_row_raises net argv3 g S :
  may_raise loop_exn (bom_row int net argv3 g S).
Proof.
  unfold bom_row.
  apply may_raise_bind; [apply qty_per_unit_raises | intros per].
  apply may_raise_bind; [apply units_raises | intros u].
  destruct (str_ne _ _); apply may_raise_ret.
Qed.

Lemma order_row_raises net argv3 supplier g :
  may_raise loop_exn (order_row int net argv3 supplier g).
Proof.
  unfold order_row.
  apply may_raise_bind; [apply qty_per_unit_raises | intros per].
  apply may_raise_bind; [apply units_raises | intros u].
  apply may_raise_ret.
Qed.

Lemma bom_loop_raises net argv3 out grouped S :
  may_raise loop_exn (bom_loop int net argv3 out grouped S).
Proof.
  revert S. induction grouped as [|g grouped IH]; intros S; simpl.
  - apply may_raise_ret.
  - apply may_raise_bind; [apply bom_row_raises | intros rs].
    apply may_raise_bind; [apply writerow_raises | intros ?]. apply IH.
Qed.

Lemma order_rows_loop_raises net argv3 supplier out grouped :
  may_raise loop_exn (order_rows_loop int net argv3 supplier out grouped).
Proof.
  induction grouped as [|g grouped IH]; simpl.
  - apply may_raise_ret.
  - apply may_raise_bind; [|intros ?; apply IH].
    case_bool_decide; [|apply may_raise_ret].
    apply may_raise_bind; [apply order_row_raises | intros row].
    apply writerow_raises.
Qed.

Lemma order_loop_raises net argv2 argv3 grouped suppliers :
  may_raise loop_exn
    (order_loop int can_open file__ stderr_repr net argv2 argv3 grouped
       suppliers).
Proof.
  induction suppliers as [|s suppliers IH]; simpl.
  - apply may_raise_ret.
  - apply may_raise_bind; [apply open_or_stdout_raises | intros h].
    apply may_raise_bind; [apply writerow_raises | intros ?].
    apply may_raise_bind; [apply order_rows_loop_raises | intros ?].
    apply may_raise_bind; [apply close_raises | intros ?]. apply IH.
Qed.

(** X11.  How a run can end.  With an argument count other than four it
    ends with [sys.exit(1)] and in no other way.  With four arguments it
    ends normally, or with the failure to load the netlist, a
    [ValueError] or a [ZeroDivisionError]; an [IOError] from opening an
    output file never leaves the run, and [sys.exit] is not reached. *)
Theorem run_ends_in_known_ways argv w :
  match (main int kicad_netlist can_open file__ stderr_repr set_iter
           argv w).2 with
  | Ok _ => length argv = 4%nat
  | Raise e =>
      (length argv ≠ 4%nat ∧ e = SystemExit 1)
      ∨ (length argv = 4%nat
         ∧ (e = NetlistLoadError ∨ e = ValueError
            ∨ e = ZeroDivisionError))
  end.
Proof.
  unfold main. destruct (decide (length argv = 4%nat)) as [Hlen|Hlen].
  - rewrite Hlen. change (negb (4 =? 4)%nat) with false. cbv iota.
    set (m := bind _ _).
    assert (may_raise (fun e => e = NetlistLoadError ∨ loop_exn e) m) as Hm.
    { apply may_raise_bind.
      - unfold load_netlist. destruct (kicad_netlist _);
          [apply may_raise_ret | apply may_raise_raise; by left].
      - intros net w1 w2 e He. right. revert w1 w2 e He.
        apply may_raise_bind; [apply open_or_stdout_raises | intros h].
        apply may_raise_bind; [apply writerow_raises | intros ?].
        apply may_raise_bind; [apply bom_loop_raises | intros S].
        apply may_raise_bind; [apply close_raises | intros ?].
        apply order_loop_raises. }
    destruct (m w) as [w' [[]|e]] eqn:Em; simpl; [done|].
    right. split; [done|].
    destruct (Hm w w' e Em) as [->|[->| ->]]; auto.
  - apply Nat.eqb_neq in Hlen. rewrite Hlen. apply Nat.eqb_neq in Hlen.
    simpl. by left.
Qed.

End Escapes.

(** ** Output paths, the output argument *)

(** X12.  No two outputs of a run share a path: the aggregate path differs
    from every order path, and two suppliers with different names get
    different order paths, whatever the output argument is. *)
Theorem output_paths_never_collide argv2 :
  (forall s, bom_path argv2 ≠ order_path argv2 s)
  ∧ (forall s1 s2, s1 ≠ s2 -> order_path argv2 s1 ≠ order_path argv2 s2).
Proof.
  split.
  - apply bom_path_ne_order_path.
  - intros s1 s2 Hne E. by apply Hne, (order_path_inj argv2).
Qed.

Lemma substring_prefix_split n s :
  (n <= String.length s)%nat ->
  exists t, s = substring 0 n s +:+ t
            ∧ String.length t = (String.length s - n)%nat.
Proof.
  revert s. induction n as [|n IH]; intros s Hn.
  - exists s. split; [by destruct s | lia].
  - destruct s as [|c s]; [simpl in Hn; lia|].
    destruct (IH s ltac:(simpl in Hn; lia)) as (t & Hs & Ht).
    exists t. simpl. rewrite string_app_cons. split; [by f_equal | done].
Qed.

Lemma substring_zero s : substring 0 0 s = "".
Proof. by destruct s. Qed.

(** X13.  The stem taken from the output argument, [sys.argv[2][:-4]], is
    the argument without its last four characters, whatever they are: the
    argument is the stem followed by a rest of four characters, or by the
    whole argument when it has four characters or fewer.  In that case the
    stem is empty and the outputs are "_BOM.csv" and "_<supplier>-order.csv"
    in the current directory. *)
Theorem stem_is_argument_less_four argv2 :
  (exists rest,
     argv2 = drop_last4 argv2 +:+ rest
     ∧ String.length rest = Nat.min 4 (String.length argv2))
  ∧ ((String.length argv2 <= 4)%nat ->
     drop_last4 argv2 = ""
     ∧ bom_path argv2 = "_BOM.csv"
     ∧ forall s, order_path argv2 s = "_" +:+ s +:+ "-order.csv").
Proof.
  split.
  - unfold drop_last4.
    destruct (substring_prefix_split (String.length argv2 - 4) argv2
                ltac:(lia)) as (t & Hs & Ht).
    exists t. split; [done | lia].
  - intros Hlen.
    assert (drop_last4 argv2 = "") as Hd.
    { unfold drop_last4.
      replace (String.length argv2 - 4)%nat with 0%nat by lia.
      apply substring_zero. }
    unfold bom_path, order_path. by rewrite Hd.
Qed.

(** ** The equivalence *)

(** X14.  [myEqu] is an equivalence relation on components: every
    component is equivalent to itself, the order of the two arguments does
    not matter, and equivalence carries over a chain.  The reference
    designator has no influence on it. *)
Theorem myEqu_is_an_equivalence :
  (forall a, myEqu a a = true)
  ∧ (forall a b, myEqu a b = myEqu b a)
  ∧ (forall a b c, myEqu a b = true -> myEqu b c = true -> myEqu a c = true)
  ∧ (forall a b ref,
       myEqu a (Comp ref (getValue b) (getPartName b) (getFootprint b)
                  (getDNP b))
       = myEqu a b).
Proof.
  split_and!.
  - intros a. by apply myEqu_iff.
  - intros a b. destruct (myEqu a b) eqn:Eab, (myEqu b a) eqn:Eba; try done.
    + apply myEqu_iff in Eab. symmetry in Eab. apply myEqu_iff in Eab.
      congruence.
    + apply myEqu_iff in Eba. symmetry in Eba. apply myEqu_iff in Eba.
      congruence.
  - intros a b c Hab Hbc. apply myEqu_iff in Hab, Hbc. apply myEqu_iff.
    congruence.
  - intros a b ref. by destruct b.
Qed.

(** ** The column list *)




(** ** Reading the aggregate file back *)

Section ReadBack.
Variable int : string -> option Z.
Variable kicad_netlist : string -> option netlist.
Variable can_open : string -> bool.
Variable file__ : string.
Variable stderr_repr : string.
Variable set_iter : gset string -> list string.

(** The aggregate file after a run whose aggregate phase completes,
    whatever the order phase does. *)
Lemma bom_file_after_run a0 a1 a2 a3 net boards w :
  kicad_netlist a1 = Some net ->
  int a3 = Some boards ->
  Forall (fun g => per_of int net g ≠ 0) (grouped_of net) ->
  can_open (bom_path a2) = true ->
  fs (main int kicad_netlist can_open file__ stderr_repr set_iter
        [a0; a1; a2; a3] w).1 !! bom_path a2
  = Some (bom_text int net boards (grouped_of net)).
Proof.
  intros Hnet Hb Hper Hopen.
  rewrite (run_phases _ _ _ _ _ _ _ _ _ _ _ _ Hnet). unfold bind at 1.
  rewrite (bom_phase_ok _ _ _ _ _ _ _ _ _ Hb Hper) by done.
  set (text := bom_text int net boards (grouped_of net)).
  apply (triple_fst _ (winv (fun m => m !! bom_path a2 = Some text))
           (winv (fun m => m !! bom_path a2 = Some text))).
  - apply (order_loop_inv int can_open file__ stderr_repr _
             (fun p _ => p ≠ bom_path a2) (fun p => p ≠ bom_path a2)).
    + intros p m Hp Hm. split; [|done]. by rewrite lookup_insert_ne.
    + intros p r m Hm Hp. split; [|done].
      unfold append_file. by rewrite lookup_alter_ne.
    + intros s _ E. by apply (bom_path_ne_order_path a2 s).
  - unfold winv. simpl. apply lookup_insert_eq.
Qed.

(** X16.  After a run whose aggregate phase completes, the aggregate file
    reads back, with a reader of quoted CSV, as one record more than there
    are groups: first the six header names, then for each group its cells
    as text, four or six of them, whatever commas, quotes or line feeds
    the fields of the netlist contain. *)
Theorem aggregate_file_reads_back a0 a1 a2 a3 net boards w :
  kicad_netlist a1 = Some net ->
  int a3 = Some boards ->
  Forall (fun g => per_of int net g ≠ 0) (grouped_of net) ->
  can_open (bom_path a2) = true ->
  exists text records,
    fs (main int kicad_netlist can_open file__ stderr_repr set_iter
          [a0; a1; a2; a3] w).1 !! bom_path a2 = Some text
    ∧ csv_parse text
      = Some (["Component"; "Qty per Unit"; "Units"; "Cost/Unit"; "Link";
               "Part Number"] :: records)
    ∧ records
      = (fun g => map str (bom_row_value int net boards g)) <$> grouped_of net
    ∧ Forall (fun r => length r = 4%nat ∨ length r = 6%nat) records.
Proof.
  intros Hnet Hb Hper Hopen. eexists _, _.
  split; [by apply bom_file_after_run|].
  split; [|split; [reflexivity|]].
  - unfold bom_text, csv_text. rewrite csv_parse_lines.
    rewrite fmap_cons, <- list_fmap_compose. done.
  - apply Forall_fmap, Forall_forall. intros g _. simpl.
    unfold bom_row_value. destruct (decide _); simpl; auto.
Qed.

End ReadBack.

(** ** The hypotheses of the further properties are met *)

Lemma demo_zero_grouped :
  grouped_of (Demo.net demo_zero) = [[Demo.R1]] ++ [Demo.U1] :: [].
Proof. by vm_compute. Qed.

Lemma demo_zero_before :
  Forall (fun g => per_of Demo.int (Demo.net demo_zero) g ≠ 0) [[Demo.R1]].
Proof. repeat constructor; by vm_compute. Qed.

Lemma demo_board_grouped :
  grouped_of (Demo.net demo_board) = [Demo.R1; Demo.R2] :: [[Demo.C1]].
Proof. by vm_compute. Qed.

Lemma open_except_bom a2 : open_except (bom_path a2) (bom_path a2) = false.
Proof. unfold open_except. by rewrite bool_decide_eq_true_2. Qed.

Lemma open_except_order a2 s :
  open_except (bom_path a2) (order_path a2 s) = true.
Proof.
  unfold open_except. rewrite bool_decide_eq_false_2; [done|]. intros E.
  by apply (bom_path_ne_order_path a2 s).
Qed.

Lemma notes_not_the_bom : "notes.txt" ≠ bom_path "out.csv".
Proof. by vm_compute. Qed.

Lemma notes_not_an_order s : "notes.txt" ≠ order_path "out.csv" s.
Proof. intros E. vm_compute in E. discriminate. Qed.

Lemma units_cover_the_need_witness :
  exists u,
    units Demo.int [Demo.R1; Demo.R2] "3" 4 Demo.world0 = (Demo.world0, Ok u)
    ∧ len [Demo.R1; Demo.R2] * 3 <= u * 4
    ∧ ceil_div (len [Demo.R1; Demo.R2] * 3) 4 <= u
        <= ceil_div (len [Demo.R1; Demo.R2] * 3) 4 + 1.
Proof.
  exact (units_cover_the_need Demo.int [Demo.R1; Demo.R2] "3" 3 4 Demo.world0
           eq_refl eq_refl).
Defined.

Lemma units_ceiling_cases_witness :
  exists u,
    units Demo.int [Demo.R1; Demo.R2] "3" 4 Demo.world0 = (Demo.world0, Ok u)
    ∧ (u = ceil_div (len [Demo.R1; Demo.R2] * 3) 4
       <-> ((len [Demo.R1; Demo.R2] * 3) mod 4 = 0
            -> len [Demo.R1; Demo.R2] mod 4 = 0))
    ∧ (3 = 1 -> u = ceil_div (len [Demo.R1; Demo.R2]) 4)
    ∧ (len [Demo.R1; Demo.R2] mod 4 = 0
       -> u = len [Demo.R1; Demo.R2] * 3 / 4)
    ∧ (3 = 0
       -> u = if decide (len [Demo.R1; Demo.R2] mod 4 = 0) then 0 else 1).
Proof.
  apply (units_ceiling_cases Demo.int [Demo.R1; Demo.R2] "3" 3 4 Demo.world0).
  - reflexivity.
  - discriminate.
Defined.

Lemma zero_quantity_leaves_partial_bom_witness :
  demo_run demo_zero all_open "2"
  = (World
       (<[bom_path "out.csv" :=
            csv_text
              (bom_header
               :: (bom_row_value Demo.int (Demo.net demo_zero) 2
                     <$> [[Demo.R1]]))]> (fs Demo.world0))
       (stdout Demo.world0) (stdout_closed Demo.world0) (stderr Demo.world0),
     Raise ZeroDivisionError).
Proof.
  exact (zero_quantity_leaves_partial_bom Demo.int
           (fun _ => Some (Demo.net demo_zero)) all_open
           "bom_bfr_format.py" "<stderr>" elements
           "bom_bfr_format.py" "in.xml" "out.csv" "2"
           (Demo.net demo_zero) 2 [[Demo.R1]] [Demo.U1] [] Demo.world0
           eq_refl eq_refl demo_zero_grouped demo_zero_before eq_refl eq_refl).
Defined.

Lemma bad_board_count_raises_witness :
  demo_run demo_board all_open "two"
  = (World (<[bom_path "out.csv" := csv_text [bom_header]]> (fs Demo.world0))
       (stdout Demo.world0) (stdout_closed Demo.world0) (stderr Demo.world0),
     Raise ValueError).
Proof.
  exact (bad_board_count_raises Demo.int
           (fun _ => Some (Demo.net demo_board)) all_open
           "bom_bfr_format.py" "<stderr>" elements
           "bom_bfr_format.py" "in.xml" "out.csv" "two"
           (Demo.net demo_board) [Demo.R1; Demo.R2] [[Demo.C1]] Demo.world0
           eq_refl eq_refl demo_board_grouped eq_refl).
Defined.

Lemma no_groups_header_only_witness :
  demo_run [] all_open "two"
  = (World (<[bom_path "out.csv" := csv_text [bom_header]]> (fs Demo.world0))
       (stdout Demo.world0) (stdout_closed Demo.world0) (stderr Demo.world0),
     Ok tt).
Proof.
  exact (no_groups_header_only Demo.int
           (fun _ => Some (Demo.net [])) all_open
           "bom_bfr_format.py" "<stderr>" elements
           "bom_bfr_format.py" "in.xml" "out.csv" "two"
           (Demo.net []) Demo.world0
           eq_refl eq_refl eq_refl (fun X s => elem_of_elements X s)).
Defined.

Lemma aggregate_fallback_recovers_witness :
  demo_run demo_board (open_except (bom_path "out.csv")) "3"
  = (World
       (insert_all (order_path "out.csv")
          (order_text Demo.int (Demo.net demo_board) 3
             (grouped_of (Demo.net demo_board)))
          (elements
             (suppliers_of (Demo.net demo_board)
                (grouped_of (Demo.net demo_board))))
          (fs Demo.world0))
       (stdout Demo.world0
        +:+ open_message "bom_bfr_format.py" "<stderr>" "out.csv"
        +:+ bom_text Demo.int (Demo.net demo_board) 3
              (grouped_of (Demo.net demo_board)))
       true (stderr Demo.world0),
     Ok tt).
Proof.
  exact (aggregate_fallback_recovers Demo.int
           (fun _ => Some (Demo.net demo_board))
           (open_except (bom_path "out.csv"))
           "bom_bfr_format.py" "<stderr>" elements
           (Demo.net demo_board) "out.csv" "3" 3 eq_refl demo_per_nonzero
           "bom_bfr_format.py" "in.xml" Demo.world0
           eq_refl eq_refl (open_except_bom "out.csv")
           (open_except_order "out.csv")).
Defined.

Lemma shop_per_nonzero :
  Forall (fun g => per_of Demo.int Shop.net g ≠ 0) (grouped_of Shop.net).
Proof. repeat constructor; by vm_compute. Qed.

Lemma shop_suppliers :
  elements (suppliers_of Shop.net (grouped_of Shop.net))
  = ["Mouser"] ++ "Farnell" :: ["Digikey"].
Proof. by vm_compute. Qed.

Lemma shop_bom_opens :
  open_except (order_path "out.csv" "Farnell") (bom_path "out.csv") = true.
Proof. by vm_compute. Qed.

Lemma shop_others_open s' :
  s' ∈ ["Mouser"] ++ ["Digikey"] ->
  open_except (order_path "out.csv" "Farnell") (order_path "out.csv" s')
  = true.
Proof.
  intros Hs'. apply elem_of_cons in Hs' as [->|Hs']; [by vm_compute|].
  apply list_elem_of_singleton in Hs' as ->. by vm_compute.
Qed.

Lemma shop_farnell_closed :
  open_except (order_path "out.csv" "Farnell") (order_path "out.csv" "Farnell")
  = false.
Proof. by vm_compute. Qed.

Lemma order_fallback_recovers_witness :
  main Demo.int (fun _ => Some Shop.net)
    (open_except (order_path "out.csv" "Farnell"))
    "bom_bfr_format.py" "<stderr>" elements
    ["bom_bfr_format.py"; "in.xml"; "out.csv"; "3"] Demo.world0
  = (World
       (insert_all (order_path "out.csv")
          (order_text Demo.int Shop.net 3 (grouped_of Shop.net))
          (["Mouser"] ++ ["Digikey"])
          (<[bom_path "out.csv" :=
               bom_text Demo.int Shop.net 3 (grouped_of Shop.net)]>
             (fs Demo.world0)))
       (stdout Demo.world0
        +:+ open_message "bom_bfr_format.py" "<stderr>" "out.csv"
        +:+ order_text Demo.int Shop.net 3 (grouped_of Shop.net) "Farnell")
       true (stderr Demo.world0),
     Ok tt).
Proof.
  exact (order_fallback_recovers Demo.int
           (fun _ => Some Shop.net)
           (open_except (order_path "out.csv" "Farnell"))
           "bom_bfr_format.py" "<stderr>" elements
           Shop.net "out.csv" "3" 3 eq_refl shop_per_nonzero
           "bom_bfr_format.py" "in.xml" ["Mouser"] "Farnell" ["Digikey"]
           Demo.world0
           eq_refl eq_refl shop_bom_opens shop_suppliers shop_others_open
           shop_farnell_closed).
Defined.

(** The same run, file by file: the sheets of Mouser, visited before
    Farnell, and of Digikey, visited after it, are on disk next to the
    aggregate file; no Farnell sheet is. *)
Example order_fallback_files :
  let w' :=
    (main Demo.int (fun _ => Some Shop.net)
       (open_except (order_path "out.csv" "Farnell"))
       "bom_bfr_format.py" "<stderr>" elements
       ["bom_bfr_format.py"; "in.xml"; "out.csv"; "3"] Demo.world0).1 in
  fs w' !! "out_Farnell-order.csv" = None
  ∧ csv_parse (default "" (fs w' !! "out_Mouser-order.csv"))
    = Some [["Component"; "Order Qty"; "Part Number"; "Link"];
            ["Transistor BC547"; "3"; "512-BC547";
             "https://mouser.example/bc547"]]
  ∧ csv_parse (default "" (fs w' !! "out_Digikey-order.csv"))
    = Some [["Component"; "Order Qty"; "Part Number"; "Link"];
            ["Resistor, 10k"; "3"; "311-10KGRCT-ND";
             "https://digikey.example/10k"]].
Proof. intros w'. split_and!; by vm_compute. Qed.

Lemma only_output_paths_touched_witness :
  fs (main Demo.int (fun _ => Some (Demo.net demo_board)) all_open
        "bom_bfr_format.py" "<stderr>" elements
        ["bom_bfr_format.py"; "in.xml"; "out.csv"; "3"] Demo.world0).1
    !! "notes.txt"
  = fs Demo.world0 !! "notes.txt".
Proof.
  exact (only_output_paths_touched Demo.int
           (fun _ => Some (Demo.net demo_board)) all_open
           "bom_bfr_format.py" "<stderr>" elements
           ["bom_bfr_format.py"; "in.xml"; "out.csv"; "3"] Demo.world0
           "notes.txt" notes_not_the_bom notes_not_an_order).
Defined.

Lemma demo_fallback_ends_ok :
  (main Demo.int (fun _ => Some (Demo.net demo_board))
     (open_except (bom_path "out.csv")) "bom_bfr_format.py" "<stderr>"
     elements ["bom_bfr_format.py"; "in.xml"; "out.csv"; "3"]
     Demo.world0).2 = Ok tt.
Proof. by vm_compute. Qed.

Lemma four_arguments_leave_stderr_alone_witness :
  (main Demo.int (fun _ => Some (Demo.net demo_board))
     (open_except (bom_path "out.csv")) "bom_bfr_format.py" "<stderr>"
     elements ["bom_bfr_format.py"; "in.xml"; "out.csv"; "3"]
     Demo.world0).2 = Ok tt
  ∧ stderr (main Demo.int (fun _ => Some (Demo.net demo_board))
              (open_except (bom_path "out.csv")) "bom_bfr_format.py"
              "<stderr>" elements
              ["bom_bfr_format.py"; "in.xml"; "out.csv"; "3"]
              Demo.world0).1
    = stderr Demo.world0.
Proof.
  split; [exact demo_fallback_ends_ok|].
  exact (proj1 (four_arguments_leave_stderr_alone Demo.int
                  (fun _ => Some (Demo.net demo_board))
                  (open_except (bom_path "out.csv"))
                  "bom_bfr_format.py" "<stderr>" elements
                  ["bom_bfr_format.py"; "in.xml"; "out.csv"; "3"]
                  Demo.world0 eq_refl)
           demo_fallback_ends_ok).
Defined.


Lemma aggregate_file_reads_back_witness :
  exists text records,
    fs (main Demo.int (fun _ => Some (Demo.net demo_board)) all_open
          "bom_bfr_format.py" "<stderr>" elements
          ["bom_bfr_format.py"; "in.xml"; "out.csv"; "3"] Demo.world0).1
      !! bom_path "out.csv" = Some text
    ∧ csv_parse text
      = Some (["Component"; "Qty per Unit"; "Units"; "Cost/Unit"; "Link";
               "Part Number"] :: records)
    ∧ records
      = (fun g => map str (bom_row_value Demo.int (Demo.net demo_board) 3 g))
          <$> grouped_of (Demo.net demo_board)
    ∧ Forall (fun r => length r = 4%nat ∨ length r = 6%nat) records.
Proof.
  exact (aggregate_file_reads_back Demo.int
           (fun _ => Some (Demo.net demo_board)) all_open
           "bom_bfr_format.py" "<stderr>" elements
           "bom_bfr_format.py" "in.xml" "out.csv" "3"
           (Demo.net demo_board) 3 Demo.world0
           eq_refl eq_refl demo_per_nonzero eq_refl).
Defined.

(** The column list on a small pair of field sets: "Value" is dropped from
    the part fields, the rest comes out in ascending order. *)
Example columns_of_two_sets :
  columns elements {[ "Qty/Unit"; "Pretty Name" ]} {[ "Value"; "MPN" ]}
  = hardcoded_columns ++ ["MPN"; "Pretty Name"; "Qty/Unit"].
Proof. by vm_compute. Qed.
